(** * Scenic drive planner: a shallow embedding of [app.py]

    The planner is a fixed pipeline over remote services: directions,
    nearby places, street imagery and a generative model.  Every pure step
    of [app.py] is embedded as a Rocq function of the same name; every
    remote answer is an explicit argument of the function that asks for it,
    with [None] standing for a request that raised.  Python exceptions that
    escape a function are results [Raise e].

    Modelling conventions.
    - A Python [str] is a [string] (its UTF-8 bytes); where the code looks
      at its characters, [code_points] reads them off the bytes.
    - A JSON number (a rating, a coordinate) is the rational [Q] it denotes.
    - A provider record is a Rocq record: a field read by subscription
      ([p['name']]) is a field of the record, a field read with [.get] is an
      [option] (or a list that is empty when the field is missing).
    - [int(i * len(path) / K)] divides in binary64 and truncates; for
      [i * len(path) < 2^53] that is the integer quotient, which is what
      [sample_index] computes. *)

From Stdlib Require Import ZArith QArith Lqa String Ascii List Lia.
From Stdlib.Strings Require Import Byte.
From Stdlib Require Import Decimal DecimalString DecimalN DecimalZ.
From stdpp Require Import base list sorting gmap strings.

Local Open Scope string_scope.
Local Open Scope list_scope.
Local Open Scope nat_scope.

(** ** Python results *)

Inductive exn : Type :=
| IndexError
| AttributeError
| TypeError
| ValueError
| DecodeError
| StreamError
| ScriptStopped (message : string).

Inductive result (A : Type) : Type :=
| Ok (a : A)
| Raise (e : exn).

Arguments Ok {A} a.
Arguments Raise {A} e.

#[global] Instance result_ret : MRet result := fun A a => Ok a.

#[global] Instance result_bind : MBind result := fun A B k r =>
  match r with
  | Ok a => k a
  | Raise e => Raise e
  end.

(** [l[i]] for a non-negative index. *)
Definition subscript {A : Type} (l : list A) (i : nat) : result A :=
  match l !! i with
  | Some x => Ok x
  | None => Raise IndexError
  end.

(** A list comprehension whose body may raise. *)
Fixpoint comprehension {A B : Type} (f : A -> result B) (l : list A)
  : result (list B) :=
  match l with
  | [] => Ok []
  | x :: l' => y ← f x; ys ← comprehension f l'; Ok (y :: ys)
  end.

(** ** Geo sampler

    [[path[int(i * len(path) / K)] for i in range(first, K)]], with
    [K = 7, first = 0] in [get_scenic_spots] and [K = 25, first = 1] in
    [create_drive_preview_assets]. *)

Definition point : Type := Q * Q.

Definition sample_index (K L i : nat) : nat := i * L / K.

Definition range (first stop : nat) : list nat := seq first (stop - first).

Definition sample_indices (first K L : nat) : list nat :=
  map (sample_index K L) (range first K).

Definition sample_points (first K : nat) (path : list point)
  : result (list point) :=
  comprehension (fun i => subscript path (sample_index K (length path) i))
                (range first K).

Definition scenic_sample_points (path : list point) : result (list point) :=
  sample_points 0 7 path.

Definition preview_sample_points (path : list point) : result (list point) :=
  sample_points 1 25 path.

(** ** Provider records and remote services *)

(** A raw place record of a nearby-search answer.  [photos] lists the
    [photo_reference] of each entry of [place['photos']] and is empty when
    the key is missing; [types] is [place.get('types', [])]. *)
Record Place : Type := {
  place_id : string;
  name : string;
  photos : list string;
  rating : option Q;
  types : list string;
  user_ratings_total : option Z;
}.

(** One alternative of a directions answer: [r.get("summary", "")],
    [r["legs"]] with the two texts of each leg, and
    [r["overview_polyline"]["points"]]. *)
Record Leg : Type := {
  leg_distance_text : string;
  leg_duration_text : string;
}.

Record RawRoute : Type := {
  raw_summary : option string;
  legs : list Leg;
  overview_polyline : string;
}.

Record MetaResponse : Type := { status : option string }.

Record ImageResponse : Type := {
  status_code : Z;
  content : list Byte.byte;
}.

(** A decoded image, as [imageio.imread] returns it. *)
Definition ndarray : Type := list N.

(** A chunk of a streamed generation: [chunk.parts] and [chunk.text]. *)
Record Chunk : Type := {
  parts : list string;
  text : string;
}.

(** A streamed generation as the iteration over it goes: the chunks that
    are read, and whether the iteration then raises instead of ending (the
    connection fails, the generation is blocked, or a chunk with parts has
    no text to give). *)
Record Stream : Type := {
  chunks : list Chunk;
  breaks : bool;
}.

(** Everything outside the program.  A remote call is a function of what
    its URL is built from, and a request that raises (transport error, bad
    status, malformed JSON) answers [None].  A nearby answer is the list of
    records the loop over it scans: when the loop meets an accepted record
    it cannot read (a key is missing) the [try] block ends the scan there,
    which is the answer cut before that record.  [str_float] is Python's
    formatting of a number, [imread] and [mimsave] are those of [imageio].
    [unicode_isdigit] and [unicode_decimal] are the interpreter's Unicode
    database for the code points beyond ASCII: whether [str.isdigit] holds
    of one, and the decimal value [int] reads it as, if it is a decimal
    digit. *)
Record Services : Type := {
  GOOGLE_MAPS_API_KEY : string;
  str_float : Q -> string;
  polyline_decode : string -> option (list point);
  directions : string -> string -> option (list RawRoute);
  nearby_keyword : point -> string -> option (list Place);
  nearby_restaurant : point -> option (list Place);
  streetview_metadata : point -> option MetaResponse;
  streetview_image : point -> option ImageResponse;
  imread : list Byte.byte -> option ndarray;
  mimsave : list ndarray -> list Byte.byte;
  generate_content : string -> option string;
  generate_content_stream : string -> option Stream;
  unicode_isdigit : N -> bool;
  unicode_decimal : N -> option N;
}.

(** [polyline.decode(s)]; malformed input raises. *)
Definition decode (w : Services) (s : string) : result (list point) :=
  match polyline_decode w s with
  | Some path => Ok path
  | None => Raise DecodeError
  end.

(** ** Python dictionaries

    A [dict] keeps its keys in insertion order; assigning to a key that is
    present replaces the value and leaves the key where it is. *)

Definition dict (V : Type) : Type := list (string * V).

Fixpoint dict_set {V : Type} (d : dict V) (k : string) (v : V) : dict V :=
  match d with
  | [] => [(k, v)]
  | (k', v') :: d' =>
      if decide (k' = k) then (k', v) :: d' else (k', v') :: dict_set d' k v
  end.

Fixpoint dict_get {V : Type} (d : dict V) (k : string) : option V :=
  match d with
  | [] => None
  | (k', v') :: d' => if decide (k' = k) then Some v' else dict_get d' k
  end.

Definition dict_keys {V : Type} (d : dict V) : list string := d.*1.

Definition dict_values {V : Type} (d : dict V) : list V := d.*2.

(** ** Scenic scorer: [get_scenic_spots] *)

Record ScenicSpot : Type := {
  spot_name : string;
  photo_reference : string;
}.

Definition keywords : list string :=
  ["scenic lookout"; "waterfall"; "historic landmark"; "temple"; "beach";
   "hiking area"].

Definition allowed_types : gset string :=
  {[ "tourist_attraction"; "park"; "museum"; "natural_feature"; "zoo";
     "art_gallery"; "landmark" ]}.

(** [x > y] on numbers. *)
Definition Qgtb (x y : Q) : bool := negb (Qle_bool x y).

(** The condition of line 62:
    [place.get('photos') and place.get('rating', 0) > 4.0
     and not allowed_types.isdisjoint(place_types)]. *)
Definition accepts (place : Place) : bool :=
  let place_types : gset string := list_to_set (types place) in
  bool_decide (photos place ≠ [])
  && Qgtb (default 0%Q (rating place)) 4
  && negb (bool_decide (allowed_types ## place_types)).

(** One iteration of [for place in results].  [place['photos'][0]] is read
    where the filter holds, so the list has a first entry. *)
Definition scan_place (scenic_places : dict ScenicSpot) (place : Place)
  : dict ScenicSpot :=
  if accepts place then
    match photos place with
    | photo :: _ =>
        dict_set scenic_places (place_id place)
          {| spot_name := name place; photo_reference := photo |}
    | [] => scenic_places
    end
  else scenic_places.

Definition scan_results (scenic_places : dict ScenicSpot) (results : list Place)
  : dict ScenicSpot :=
  foldl scan_place scenic_places results.

(** The two nested loops over sample points and keywords; a request that
    raises is skipped ([except Exception: continue]).  The records stored
    before the [try] block is left stay stored: the answer scanned is then
    the one cut before the record that raised. *)
Definition scan_keyword (w : Services) (pt : point)
    (scenic_places : dict ScenicSpot) (keyword : string) : dict ScenicSpot :=
  match nearby_keyword w pt keyword with
  | Some results => scan_results scenic_places results
  | None => scenic_places
  end.

Definition scan_point (w : Services) (scenic_places : dict ScenicSpot)
    (pt : point) : dict ScenicSpot :=
  foldl (scan_keyword w pt) scenic_places keywords.

Definition get_scenic_spots (w : Services) (route_polyline : string)
  : result (list ScenicSpot) :=
  path ← decode w route_polyline;
  sample_points ← scenic_sample_points path;
  Ok (dict_values (foldl (scan_point w) [] sample_points)).

(** The records the scorer scans for a list of sample points, in the order
    of the requests: every keyword at every point, a failed request
    contributing nothing. *)
Definition processed_records (w : Services) (sample_points : list point)
  : list Place :=
  pt ← sample_points; keyword ← keywords;
  default [] (nearby_keyword w pt keyword).

(** The spot an accepted record is stored as. *)
Definition spot_of (p : Place) : option ScenicSpot :=
  (fun photo => {| spot_name := name p; photo_reference := photo |})
    <$> head (photos p).

Definition accepted_as (pid : string) (p : Place) : bool :=
  accepts p && bool_decide (place_id p = pid).

(** ** Pit-stop ranker: [get_pit_stops] *)

(** [sorted(l, key=key, reverse=reverse)]: a stable sort.  With
    [reverse=True] the list is reversed, sorted stably in ascending order and
    reversed again, as [list.sort] does. *)
Section Sorted.

Context {A : Type} (key : A -> Q).

Fixpoint insert_by (x : A) (l : list A) : list A :=
  match l with
  | [] => [x]
  | y :: l' =>
      if Qle_bool (key x) (key y) then x :: y :: l' else y :: insert_by x l'
  end.

Fixpoint sort_by (l : list A) : list A :=
  match l with
  | [] => []
  | x :: l' => insert_by x (sort_by l')
  end.

Definition sorted (reverse : bool) (l : list A) : list A :=
  if reverse then rev (sort_by (rev l)) else sort_by l.

End Sorted.

(** [p.get('rating', 'N/A')]: a number or the string ['N/A']. *)
Inductive rating_display : Type :=
| Rated (r : Q)
| NA.

Record PitStop : Type := {
  stop_name : string;
  stop_rating : rating_display;
  total_ratings : Z;
}.

Definition pit_stop_of (p : Place) : PitStop :=
  {| stop_name := name p;
     stop_rating := match rating p with Some r => Rated r | None => NA end;
     total_ratings := default 0%Z (user_ratings_total p) |}.

Definition sort_key (x : Place) : Q := default 0%Q (rating x).

(** Line 75. *)
Definition rank_pit_stops (results : list Place) : list PitStop :=
  pit_stop_of <$> take 5 (sorted sort_key true results).

Definition get_pit_stops (w : Services) (route_polyline : string)
  : result (list PitStop) :=
  path ← decode w route_polyline;
  midpoint ← subscript path (length path / 2);
  match nearby_restaurant w midpoint with
  | Some results => Ok (rank_pit_stops results)
  | None => Ok []
  end.

(** ** Preview builder: [create_drive_preview_assets] *)

(** An in-memory byte stream: its buffer and the stream position. *)
Record BytesIO : Type := {
  getvalue : list Byte.byte;
  position : nat;
}.

Definition street_view_image_url (w : Services) (pt : point) : string :=
  "https://maps.googleapis.com/maps/api/streetview?size=400x300&location="
  +:+ str_float w pt.1 +:+ "," +:+ str_float w pt.2
  +:+ "&fov=90&heading=235&pitch=10&key=" +:+ GOOGLE_MAPS_API_KEY w.

(** The body of the loop over sample points, after the [break] test.  The
    URL is appended before the image is decoded, so a decoder that raises
    leaves the URL in the grid and adds no frame. *)
Definition preview_step (w : Services)
    (state : list ndarray * list string) (pt : point)
  : list ndarray * list string :=
  let '(images_for_gif, image_urls_for_grid) := state in
  match streetview_metadata w pt with
  | Some meta_response =>
      if bool_decide (status meta_response = Some "OK") then
        let image_url := street_view_image_url w pt in
        match streetview_image w pt with
        | Some image_response =>
            if bool_decide (status_code image_response = 200%Z) then
              let image_urls_for_grid := image_urls_for_grid ++ [image_url] in
              if bool_decide (length images_for_gif < 10) then
                match imread w (content image_response) with
                | Some image => (images_for_gif ++ [image], image_urls_for_grid)
                | None => (images_for_gif, image_urls_for_grid)
                end
              else (images_for_gif, image_urls_for_grid)
            else state
        | None => state
        end
      else state
  | None => state
  end.

Fixpoint preview_loop (w : Services) (sample_points : list point)
    (state : list ndarray * list string) : list ndarray * list string :=
  match sample_points with
  | [] => state
  | pt :: rest =>
      if bool_decide (12 <= length state.2) then state
      else preview_loop w rest (preview_step w state pt)
  end.

Definition create_drive_preview_assets (w : Services) (polyline_str : string)
  : result (option BytesIO * option (list string)) :=
  path ← decode w polyline_str;
  sample_points ← preview_sample_points path;
  let '(images_for_gif, image_urls_for_grid) :=
    preview_loop w sample_points ([], []) in
  match images_for_gif with
  | [] => Ok (None, None)
  | _ :: _ =>
      Ok (Some {| getvalue := mimsave w images_for_gif; position := 0 |},
          Some image_urls_for_grid)
  end.

(** What the loop collects, said without the loop.  A point is a hit when
    its metadata request answers "OK" and its image request answers 200; the
    hits the loop keeps are the first twelve along the route. *)
Definition fetched (w : Services) (pt : point) : option ImageResponse :=
  meta_response ← streetview_metadata w pt;
  guard (status meta_response = Some "OK");;
  image_response ← streetview_image w pt;
  guard (status_code image_response = 200%Z);;
  Some image_response.

Definition hits (w : Services) (sample_points : list point)
  : list (point * ImageResponse) :=
  take 12 (omap (fun pt => pair pt <$> fetched w pt) sample_points).

Definition grid_of (w : Services) (h : list (point * ImageResponse))
  : list string :=
  (fun x => street_view_image_url w x.1) <$> h.

Definition decoded (w : Services) (x : point * ImageResponse) : option ndarray :=
  imread w (content x.2).

Definition frames_of (w : Services) (h : list (point * ImageResponse))
  : list ndarray :=
  take 10 (omap (decoded w) h).

(** ** Strings and numbers *)

Definition dq : string := String (ascii_of_nat 34) EmptyString.
Definition nl : string := String (ascii_of_nat 10) EmptyString.
Definition backslash : ascii := ascii_of_nat 92.

(** [str(n)] for integers. *)
Definition str_N (n : N) : string := NilEmpty.string_of_uint (N.to_uint n).
Definition str_nat (n : nat) : string := str_N (N.of_nat n).
Definition str_Z (z : Z) : string := NilZero.string_of_int (Z.to_int z).

(** The code points of a [str], read off its UTF-8 bytes.  A byte that
    starts no well-formed sequence reads as U+FFFD; the bytes of a Python
    [str] have none. *)
Definition continuation (b : N) : bool := (128 <=? b)%N && (b <? 192)%N.

Fixpoint code_points (s : string) : list N :=
  match s with
  | EmptyString => []
  | String a1 s1 =>
      let b1 := N_of_ascii a1 in
      if (b1 <? 128)%N then b1 :: code_points s1
      else
        match s1 with
        | EmptyString => [65533%N]
        | String a2 s2 =>
            let b2 := N_of_ascii a2 in
            if (192 <=? b1)%N && (b1 <? 224)%N && continuation b2 then
              ((b1 - 192) * 64 + (b2 - 128))%N :: code_points s2
            else
              match s2 with
              | EmptyString => 65533%N :: code_points s1
              | String a3 s3 =>
                  let b3 := N_of_ascii a3 in
                  if (224 <=? b1)%N && (b1 <? 240)%N && continuation b2
                     && continuation b3 then
                    ((b1 - 224) * 4096 + (b2 - 128) * 64 + (b3 - 128))%N
                      :: code_points s3
                  else
                    match s3 with
                    | EmptyString => 65533%N :: code_points s1
                    | String a4 s4 =>
                        let b4 := N_of_ascii a4 in
                        if (240 <=? b1)%N && (b1 <? 248)%N && continuation b2
                           && continuation b3 && continuation b4 then
                          ((b1 - 240) * 262144 + (b2 - 128) * 4096
                           + (b3 - 128) * 64 + (b4 - 128))%N
                            :: code_points s4
                        else 65533%N :: code_points s1
                    end
              end
        end
  end.

(** [str.isdigit] of one character: the ten ASCII digits, and beyond ASCII
    what the Unicode database says. *)
Definition isdigit (w : Services) (c : N) : bool :=
  if (c <? 128)%N then (48 <=? c)%N && (c <=? 57)%N else unicode_isdigit w c.

(** The value [int] reads a character as: the ASCII digits and the decimal
    digits of other scripts have one; a character such as a superscript
    two, of which [str.isdigit] holds, has none. *)
Definition decimal_value (w : Services) (c : N) : option N :=
  if (c <? 128)%N then
    if (48 <=? c)%N && (c <=? 57)%N then Some (c - 48)%N else None
  else unicode_decimal w c.

(** [sys.get_int_max_str_digits()], at its default. *)
Definition int_max_str_digits : nat := 4300.

(** [int(s)] for a string [s] of characters of which [str.isdigit] holds.
    It is a [ValueError] when [s] is empty, has more than 4300 characters
    or has a character without a decimal value; otherwise the number the
    decimal values denote in base ten. *)
Definition int_of_digits (w : Services) (digits : list N) : result N :=
  match digits with
  | [] => Raise ValueError
  | _ :: _ =>
      if bool_decide (int_max_str_digits < length digits) then Raise ValueError
      else
        match mapM (decimal_value w) digits with
        | Some values => Ok (foldl (fun n v => (10 * n + v)%N) 0%N values)
        | None => Raise ValueError
        end
  end.

(** [s.replace('\\n', '<br>')] inside the replacement field of the template
    (accepted from Python 3.12 on): the pattern is the two characters
    backslash, n. *)
Fixpoint replace_escaped_newline (s : string) : string :=
  match s with
  | EmptyString => EmptyString
  | String c s' =>
      match s' with
      | String c' s'' =>
          if Ascii.eqb c backslash && Ascii.eqb c' "n"
          then "<br>" +:+ replace_escaped_newline s''
          else String c (replace_escaped_newline s')
      | EmptyString => String c EmptyString
      end
  end.

Definition b64_alphabet : string :=
  "ABCDEFGHIJKLMNOPQRSTUVWXYZabcdefghijklmnopqrstuvwxyz0123456789+/".

Definition b64_char (n : N) : string :=
  match String.get (N.to_nat (N.land n 63)) b64_alphabet with
  | Some c => String c EmptyString
  | None => "="
  end.

(** [base64.b64encode(bs).decode("utf-8")]. *)
Fixpoint b64encode (bs : list Byte.byte) : string :=
  match bs with
  | [] => EmptyString
  | [a] =>
      let n := N.shiftl (Byte.to_N a) 16 in
      b64_char (N.shiftr n 18) +:+ b64_char (N.shiftr n 12) +:+ "=="
  | [a; b] =>
      let n := N.lor (N.shiftl (Byte.to_N a) 16) (N.shiftl (Byte.to_N b) 8) in
      b64_char (N.shiftr n 18) +:+ b64_char (N.shiftr n 12)
      +:+ b64_char (N.shiftr n 6) +:+ "="
  | a :: b :: c :: rest =>
      let n := N.lor (N.lor (N.shiftl (Byte.to_N a) 16)
                            (N.shiftl (Byte.to_N b) 8)) (Byte.to_N c) in
      b64_char (N.shiftr n 18) +:+ b64_char (N.shiftr n 12)
      +:+ b64_char (N.shiftr n 6) +:+ b64_char n +:+ b64encode rest
  end.

(** ** Routes: [get_route_options] *)

(** A route dictionary.  [scenic_spots] is attached in the second stage of
    the run and is empty until then. *)
Record Route : Type := {
  route_id : string;
  summary : string;
  distance_text : string;
  duration_text : string;
  polyline : string;
  scenic_spots : list ScenicSpot;
}.

Definition enumerate {A : Type} (l : list A) : list (nat * A) :=
  zip (seq 0 (length l)) l.

Definition route_of (ir : nat * RawRoute) : result Route :=
  leg ← subscript (legs ir.2) 0;
  Ok {| route_id := "Route " +:+ str_nat (ir.1 + 1);
        summary := default EmptyString (raw_summary ir.2);
        distance_text := leg_distance_text leg;
        duration_text := leg_duration_text leg;
        polyline := overview_polyline ir.2;
        scenic_spots := [] |}.

Definition get_route_options (w : Services) (start end_ : string)
  : option (list Route) :=
  match directions w start end_ with
  | None => None
  | Some routes =>
      match routes with
      | [] => None
      | _ :: _ =>
          match comprehension route_of (enumerate routes) with
          | Ok route_options => Some route_options
          | Raise _ => None
          end
      end
  end.

(** ** Narrative generator: [get_llm_choice], [get_llm_narrative_stream] *)

Definition choice_prompt (route_options_with_scenery : list Route) : string :=
  foldl (fun prompt ir =>
           let route : Route := ir.2 in
           let scenic_summary :=
             match scenic_spots route with
             | [] => "Direct route."
             | _ :: _ =>
                 str_nat (length (scenic_spots route)) +:+ " scenic spots found."
             end in
           prompt +:+ "**Option " +:+ str_nat (ir.1 + 1) +:+ "**: via "
           +:+ summary route +:+ ". Details: " +:+ scenic_summary +:+ nl)
        ("Analyze the following driving route options and determine which is the most scenic. Respond with only the number of your chosen route (e.g., '1', '2', '3')."
         +:+ nl +:+ nl)
        (enumerate route_options_with_scenery).

Definition get_llm_choice (w : Services) (route_options_with_scenery : list Route)
  : option string :=
  match generate_content w (choice_prompt route_options_with_scenery) with
  | Some response_text =>
      match
        int_of_digits w (List.filter (isdigit w) (code_points response_text))
      with
      | Ok choice_number => Some ("Route " +:+ str_N choice_number)
      | Raise _ => None
      end
  | None => None
  end.

Definition narrative_prompt (chosen_route : Route) : string :=
  let scenic_spot_names := spot_name <$> scenic_spots chosen_route in
  "You are an Expert Drive Curator, blending the passion of a driving enthusiast with the precision of a route analyst. Your goal is to create a compelling, informative, and concise summary of the following scenic drive."
  +:+ nl +:+ nl
  +:+ "**Route Data:**" +:+ nl
  +:+ "- **Primary Roads:** " +:+ summary chosen_route +:+ nl
  +:+ "- **Detected Key Sights:** "
  +:+ match scenic_spot_names with
      | [] => "None specified"
      | _ :: _ => String.concat ", " (take 3 scenic_spot_names)
      end
  +:+ nl +:+ nl
  +:+ "**Instructions:**" +:+ nl
  +:+ "Write an engaging narrative (2-3 short paragraphs). Start with a strong opening that captures the essence of the drive. Then, describe the road itself—mentioning specific highways, the terrain (urban, ghats, coastal), and the driving feel (winding, open, etc.). Weave in a description of one or two of the most significant Key Sights by name. Conclude with a summary of what makes this drive special and who it's perfect for. Your tone should be knowledgeable and exciting, but grounded in the facts provided.".

Definition get_llm_narrative_stream (w : Services) (chosen_route : Route)
  : option Stream :=
  generate_content_stream w (narrative_prompt chosen_route).

Definition stream_text_generator (stream : list Chunk) : list string :=
  omap (fun chunk =>
          match parts chunk with
          | [] => None
          | _ :: _ => Some (text chunk)
          end) stream.

(** [list(stream_text_generator(narrative_stream))]: the iteration runs
    outside any [try], so a stream that breaks raises here. *)
Definition narrative_texts (stream : Stream) : result (list string) :=
  if breaks stream then Raise StreamError
  else Ok (stream_text_generator (chunks stream)).

(** ** Report composer: [generate_report_html] *)

Record ReportData : Type := {
  start_destination : string;
  end_destination : string;
  chosen_route : Route;
  ai_narrative : string;
  map_url : string;
  grid_urls : option (list string);
  report_scenic_spots : list ScenicSpot;
  pit_stops : list PitStop;
  drive_gif : option BytesIO;
}.

Definition place_photo_url (w : Services) (spot : ScenicSpot) : string :=
  "https://maps.googleapis.com/maps/api/place/photo?maxwidth=400&photoreference="
  +:+ photo_reference spot +:+ "&key=" +:+ GOOGLE_MAPS_API_KEY w.

Definition str_rating (w : Services) (r : rating_display) : string :=
  match r with
  | Rated q => str_float w q
  | NA => "N/A"
  end.

(** [None.getvalue()] is an [AttributeError], [for url in None] a
    [TypeError]. *)
Definition generate_report_html (w : Services) (data : ReportData)
  : result string :=
  gif ← match drive_gif data with
        | Some gif_bytes => Ok gif_bytes
        | None => Raise AttributeError
        end;
  let gif_base64 := b64encode (getvalue gif) in
  urls ← match grid_urls data with
         | Some urls => Ok urls
         | None => Raise TypeError
         end;
  let drive_preview_html :=
    String.concat EmptyString
      ((fun url => "<img src=" +:+ dq +:+ url +:+ dq +:+ " alt=" +:+ dq
                   +:+ "Drive Preview" +:+ dq +:+ ">") <$> urls) in
  let scenic_spots_html :=
    foldl (fun html spot =>
             html +:+ "<div><img src=" +:+ dq +:+ place_photo_url w spot +:+ dq
             +:+ " alt=" +:+ dq +:+ spot_name spot +:+ dq +:+ "><b>"
             +:+ spot_name spot +:+ "</b></div>")
          EmptyString (take 8 (report_scenic_spots data)) in
  let pit_stops_html :=
    String.concat EmptyString
      ((fun stop => "<li><b>" +:+ stop_name stop +:+ "</b> - ⭐ "
                    +:+ str_rating w (stop_rating stop) +:+ " ("
                    +:+ str_Z (total_ratings stop) +:+ " ratings)</li>")
         <$> pit_stops data) in
  Ok (
    "
    <!DOCTYPE html><html lang=" +:+ dq +:+ "en" +:+ dq +:+
    "><head><meta charset=" +:+ dq +:+ "UTF-8" +:+ dq +:+ "><meta name=" +:+
    dq +:+ "viewport" +:+ dq +:+ " content=" +:+ dq +:+
    "width=device-width, initial-scale=1.0" +:+ dq +:+
    ">
    <title>Scenic Drive Report</title><style>body { font-family: -apple-system, BlinkMacSystemFont, " +:+
    dq +:+ "Segoe UI" +:+ dq +:+
    ", Roboto, sans-serif; margin: 0; padding: 0; background-color: #f0f2f6; }
    .container { max-width: 900px; margin: 20px auto; background: #fff; padding: 30px; border-radius: 8px; box-shadow: 0 4px 12px rgba(0,0,0,0.1); }
    h1, h2 { color: #1a1a1a; border-bottom: 2px solid #007bff; padding-bottom: 10px; } h1 { font-size: 2.5em; text-align: center; border: none; }
    h2 { font-size: 1.8em; margin-top: 40px; } p, li { color: #333; line-height: 1.6; } .header { text-align: center; margin-bottom: 30px; }
    .header p { font-size: 1.2em; color: #555; } .map img, .gif-preview img { max-width: 100%; border-radius: 8px; }
    .grid { display: grid; grid-template-columns: repeat(auto-fit, minmax(200px, 1fr)); gap: 10px; margin-top: 15px;}
    .grid img { width: 100%; border-radius: 8px; } .grid div { text-align: center; } ul { padding-left: 20px; }</style></head><body><div class=" +:+
    dq +:+ "container" +:+ dq +:+ ">
    <div class=" +:+ dq +:+ "header" +:+
    dq +:+ "><h1>Scenic Drive Report</h1><p>From <strong>" +:+
    start_destination data +:+ "</strong> to <strong>" +:+
    end_destination data +:+ "</strong></p>
    <p>" +:+
    distance_text (chosen_route data) +:+ " / " +:+
    duration_text (chosen_route data) +:+ "</p></div>
    <div class=" +:+
    dq +:+ "map" +:+ dq +:+ "><img src=" +:+ dq +:+ map_url data +:+ dq +:+
    " alt=" +:+ dq +:+ "Route Map" +:+ dq +:+
    "></div>
    <h2>💡 AI Route Analysis</h2><p>" +:+
    replace_escaped_newline (ai_narrative data) +:+
    "</p>
    
    <h2>🛣️ Animated Drive Preview</h2><div class=" +:+ dq +:+
    "gif-preview" +:+ dq +:+ "><img src=" +:+ dq +:+
    "data:image/gif;base64," +:+ gif_base64 +:+ dq +:+ " alt=" +:+ dq +:+
    "Animated Drive Preview" +:+ dq +:+
    "></div>
    
    <h2>Key Vistas</h2><div class=" +:+ dq +:+ "grid" +:+
    dq +:+ ">" +:+ drive_preview_html +:+
    "</div>
    <h2>🏞️ Sights to See</h2><div class=" +:+ dq +:+ "grid" +:+
    dq +:+ ">" +:+ scenic_spots_html +:+
    "</div>
    <h2>☕ Recommended Pit Stops</h2><ul>" +:+ pit_stops_html +:+
    "</ul></div></body></html>
    ").

(** ** Session orchestrator *)

(** [max(l, key=key)]: the first element whose key is maximal. *)
Definition max_by {A : Type} (key : A -> nat) (l : list A) : result A :=
  match l with
  | [] => Raise ValueError
  | x :: l' =>
      Ok (foldl (fun best y => if bool_decide (key best < key y) then y else best)
                x l')
  end.

Definition most_scenic (route_options : list Route) : result (option Route) :=
  r ← max_by (fun r => length (scenic_spots r)) route_options; Ok (Some r).

(** Lines 200-204: the fallback test and the two ways to pick the route. *)
Definition choose_route (route_options : list Route)
    (chosen_route_id : option string) : result (option Route) :=
  match chosen_route_id with
  | None => most_scenic route_options
  | Some cid =>
      if bool_decide (cid = EmptyString)
         || negb (bool_decide (cid ∈ route_id <$> route_options))
      then most_scenic route_options
      else Ok (find (fun r => bool_decide (route_id r = cid)) route_options)
  end.

Definition attach_scenic_spots (w : Services) (route : Route) : result Route :=
  spots ← get_scenic_spots w (polyline route);
  Ok {| route_id := route_id route; summary := summary route;
        distance_text := distance_text route;
        duration_text := duration_text route;
        polyline := polyline route; scenic_spots := spots |}.

Definition static_map_url (w : Services) (chosen_route : Route)
    (start_destination end_destination : string) : string :=
  "https://maps.googleapis.com/maps/api/staticmap?size=600x400&path=weight:4|color:0x0000ff|enc:"
  +:+ polyline chosen_route +:+ "&markers=color:green|label:A|"
  +:+ start_destination +:+ "&markers=color:red|label:B|" +:+ end_destination
  +:+ "&key=" +:+ GOOGLE_MAPS_API_KEY w.

(** The planning block (lines 189-222) for two non-empty destinations.
    [st.stop()] after [st.error(msg)] is [Raise (ScriptStopped msg)]. *)
Definition plan (w : Services) (start_destination end_destination : string)
  : result ReportData :=
  match get_route_options w start_destination end_destination with
  | None => Raise (ScriptStopped "No routes found.")
  | Some [] => Raise (ScriptStopped "No routes found.")
  | Some (route :: others) =>
      route_options ← comprehension (attach_scenic_spots w) (route :: others);
      let chosen_route_id := get_llm_choice w route_options in
      chosen ← choose_route route_options chosen_route_id;
      match chosen with
      | None => Raise (ScriptStopped "Could not determine a final route.")
      | Some chosen_route =>
          assets ← create_drive_preview_assets w (polyline chosen_route);
          pit_stops ← get_pit_stops w (polyline chosen_route);
          ai_narrative_text ←
            match get_llm_narrative_stream w chosen_route with
            | Some stream =>
                texts ← narrative_texts stream;
                Ok (String.concat EmptyString texts)
            | None => Ok "AI narrative could not be generated."
            end;
          Ok {| start_destination := start_destination;
                end_destination := end_destination;
                chosen_route := chosen_route;
                ai_narrative := ai_narrative_text;
                map_url := static_map_url w chosen_route start_destination
                                          end_destination;
                grid_urls := assets.2;
                report_scenic_spots := scenic_spots chosen_route;
                pit_stops := pit_stops;
                drive_gif := assets.1 |}
      end
  end.

(** The display and persistence block (lines 225-251): compose the report,
    write it under [archive/] with a name made of [timestamp], the value of
    [datetime.now().strftime(...)], and offer it for download.  The result is
    the archive directory after the write and the downloadable document. *)
Definition present (w : Services) (timestamp : string) (archive : dict string)
    (data : ReportData) : result (dict string * string) :=
  report_html ← generate_report_html w data;
  let file_name := "scenic_route_" +:+ timestamp +:+ ".html" in
  Ok (dict_set archive ("archive/" +:+ file_name) report_html, report_html).

(** One click on the planning button, then the rerun of the display block. *)
Definition planning_run (w : Services) (start_destination end_destination : string)
    (timestamp : string) (archive : dict string)
  : result (dict string * string) :=
  data ← plan w start_destination end_destination;
  present w timestamp archive data.

(** ** The script, as it is rerun

    Streamlit runs the script from the top on every interaction.  What one
    rerun leaves behind is the stored report ([st.session_state.report_data]),
    the archive directory and the exception that ended the rerun, if any.
    The widgets the rerun draws are not part of the model. *)

Record Rerun : Type := {
  report_data : option ReportData;
  archive_after : dict string;
  raised : option exn;
}.

(** Truth value of what a search box returns: [None] and the empty string
    are false. *)
Definition selected (destination : option string) : bool :=
  match destination with
  | Some (String _ _) => true
  | Some EmptyString => false
  | None => false
  end.

(** Lines 179-251.  [stored] is [st.session_state.report_data] when the
    rerun starts, [button] whether the planning button was clicked.  The
    planning block sets the stored report to [None] before it plans and to
    the new data once the plan is complete; the display block runs when a
    report is stored. *)
Definition script_run (w : Services) (stored : option ReportData)
    (button : bool) (start_destination end_destination : option string)
    (timestamp : string) (archive : dict string) : Rerun :=
  let planned : result (option ReportData) :=
    if button && selected start_destination && selected end_destination then
      data ← plan w (default EmptyString start_destination)
                    (default EmptyString end_destination);
      Ok (Some data)
    else Ok stored in
  match planned with
  | Raise e => {| report_data := None; archive_after := archive; raised := Some e |}
  | Ok None => {| report_data := None; archive_after := archive; raised := None |}
  | Ok (Some data) =>
      match present w timestamp archive data with
      | Ok written =>
          {| report_data := Some data; archive_after := written.1;
             raised := None |}
      | Raise e =>
          {| report_data := Some data; archive_after := archive;
             raised := Some e |}
      end
  end.

(** ** Notions used in the statements *)

(** [r] is the first element of [l] whose key is maximal. *)
Definition first_max {A : Type} (key : A -> nat) (l : list A) (r : A) : Prop :=
  exists i, l !! i = Some r
    /\ (forall y, y ∈ l -> key y <= key r)
    /\ (forall j y, j < i -> l !! j = Some y -> key y < key r).

(** The identifiers are "Route 1", "Route 2", ... in list order, as
    [get_route_options] assigns them. *)
Definition labelled (route_options : list Route) : Prop :=
  forall i r, route_options !! i = Some r ->
              route_id r = "Route " +:+ str_nat (i + 1).

(** The digits of a decimal numeral, most significant first. *)
Fixpoint uint_values (d : uint) : list N :=
  match d with
  | Nil => []
  | D0 d => 0%N :: uint_values d
  | D1 d => 1%N :: uint_values d
  | D2 d => 2%N :: uint_values d
  | D3 d => 3%N :: uint_values d
  | D4 d => 4%N :: uint_values d
  | D5 d => 5%N :: uint_values d
  | D6 d => 6%N :: uint_values d
  | D7 d => 7%N :: uint_values d
  | D8 d => 8%N :: uint_values d
  | D9 d => 9%N :: uint_values d
  end.

(** An exception other than the one [st.stop()] raises. *)
Definition is_crash (e : exn) : Prop :=
  match e with
  | ScriptStopped _ => False
  | _ => True
  end.

(** The report data after [data['drive_gif'].seek(pos)]. *)
Definition seek (pos : nat) (data : ReportData) : ReportData :=
  {| start_destination := start_destination data;
     end_destination := end_destination data;
     chosen_route := chosen_route data;
     ai_narrative := ai_narrative data;
     map_url := map_url data;
     grid_urls := grid_urls data;
     report_scenic_spots := report_scenic_spots data;
     pit_stops := pit_stops data;
     drive_gif := (fun gif => {| getvalue := getvalue gif; position := pos |})
                    <$> drive_gif data |}.

(** The name under which [present] archives the report. *)
Definition archive_path (timestamp : string) : string :=
  "archive/" +:+ "scenic_route_" +:+ timestamp +:+ ".html".

(** The document up to the start destination: the template from its first
    character to the opening tag before the first placeholder. *)
Definition report_head : string :=
    "
    <!DOCTYPE html><html lang=" +:+ dq +:+ "en" +:+ dq +:+
    "><head><meta charset=" +:+ dq +:+ "UTF-8" +:+ dq +:+ "><meta name=" +:+
    dq +:+ "viewport" +:+ dq +:+ " content=" +:+ dq +:+
    "width=device-width, initial-scale=1.0" +:+ dq +:+
    ">
    <title>Scenic Drive Report</title><style>body { font-family: -apple-system, BlinkMacSystemFont, " +:+
    dq +:+ "Segoe UI" +:+ dq +:+
    ", Roboto, sans-serif; margin: 0; padding: 0; background-color: #f0f2f6; }
    .container { max-width: 900px; margin: 20px auto; background: #fff; padding: 30px; border-radius: 8px; box-shadow: 0 4px 12px rgba(0,0,0,0.1); }
    h1, h2 { color: #1a1a1a; border-bottom: 2px solid #007bff; padding-bottom: 10px; } h1 { font-size: 2.5em; text-align: center; border: none; }
    h2 { font-size: 1.8em; margin-top: 40px; } p, li { color: #333; line-height: 1.6; } .header { text-align: center; margin-bottom: 30px; }
    .header p { font-size: 1.2em; color: #555; } .map img, .gif-preview img { max-width: 100%; border-radius: 8px; }
    .grid { display: grid; grid-template-columns: repeat(auto-fit, minmax(200px, 1fr)); gap: 10px; margin-top: 15px;}
    .grid img { width: 100%; border-radius: 8px; } .grid div { text-align: center; } ul { padding-left: 20px; }</style></head><body><div class=" +:+
    dq +:+ "container" +:+ dq +:+ ">
    <div class=" +:+ dq +:+ "header" +:+
    dq +:+ "><h1>Scenic Drive Report</h1><p>From <strong>".

(** ** Scenarios

    Concrete services and records on which the examples below run.  The
    texts of these services are ASCII, and their Unicode database has no
    digit beyond ASCII, except in [says_in_scripts]. *)

Definition origin : point := (0%Q, 0%Q).

Definition place (pid nm : string) (refs : list string) (r : option Q)
    (tys : list string) : Place :=
  {| place_id := pid; name := nm; photos := refs; rating := r; types := tys;
     user_ratings_total := None |}.

Definition one_route : list RawRoute :=
  [ {| raw_summary := Some "NH 48";
       legs := [ {| leg_distance_text := "150 km";
                    leg_duration_text := "3 hours" |} ];
       overview_polyline := "_p~iF~ps|U" |} ].

(** Directions finds one route; nothing else answers: no places, no street
    imagery, no generated text. *)
Definition no_imagery : Services :=
  {| GOOGLE_MAPS_API_KEY := "KEY";
     str_float := fun _ => "0.0";
     polyline_decode := fun _ => Some [origin];
     directions := fun _ _ => Some one_route;
     nearby_keyword := fun _ _ => None;
     nearby_restaurant := fun _ => None;
     streetview_metadata := fun _ => None;
     streetview_image := fun _ => None;
     imread := fun _ => None;
     mimsave := fun _ => [];
     generate_content := fun _ => None;
     generate_content_stream := fun _ => None;
     unicode_isdigit := fun _ => false;
     unicode_decimal := fun _ => None |}.

(** One waterfall listed twice under the same place identifier, with
    different names and photos: once for the keyword "waterfall" and once
    for the keyword "temple". *)
Definition falls_old : Place :=
  place "ChIJ1" "Old Falls" ["photo-old"] (Some (45 # 10)) ["park"].

Definition falls_new : Place :=
  place "ChIJ1" "New Falls" ["photo-new"] (Some (47 # 10)) ["tourist_attraction"].

Definition two_listings : Services :=
  {| GOOGLE_MAPS_API_KEY := "KEY";
     str_float := fun _ => "0.0";
     polyline_decode := fun _ => Some [origin];
     directions := fun _ _ => Some one_route;
     nearby_keyword := fun _ keyword =>
       if bool_decide (keyword = "waterfall") then Some [falls_old]
       else if bool_decide (keyword = "temple") then Some [falls_new]
       else None;
     nearby_restaurant := fun _ => None;
     streetview_metadata := fun _ => None;
     streetview_image := fun _ => None;
     imread := fun _ => None;
     mimsave := fun _ => [];
     generate_content := fun _ => None;
     generate_content_stream := fun _ => None;
     unicode_isdigit := fun _ => false;
     unicode_decimal := fun _ => None |}.

(** The same two listings, from a service whose other searches succeed
    and come back empty where those of [two_listings] fail. *)
Definition quiet_elsewhere : Services :=
  {| GOOGLE_MAPS_API_KEY := "KEY";
     str_float := fun _ => "0.0";
     polyline_decode := fun _ => Some [origin];
     directions := fun _ _ => Some one_route;
     nearby_keyword := fun _ keyword =>
       if bool_decide (keyword = "waterfall") then Some [falls_old]
       else if bool_decide (keyword = "temple") then Some [falls_new]
       else Some [];
     nearby_restaurant := fun _ => None;
     streetview_metadata := fun _ => None;
     streetview_image := fun _ => None;
     imread := fun _ => None;
     mimsave := fun _ => [];
     generate_content := fun _ => None;
     generate_content_stream := fun _ => None;
     unicode_isdigit := fun _ => false;
     unicode_decimal := fun _ => None |}.

(** Four cafes near the midpoint, rated 3.5, 4.8, unrated and 4.8, and a
    service that finds them. *)
Definition cafe (nm : string) (r : option Q) : Place :=
  {| place_id := nm; name := nm; photos := []; rating := r;
     types := ["cafe"]; user_ratings_total := Some 12%Z |}.

Definition cafes : list Place :=
  [ cafe "Bean There" (Some (35 # 10)); cafe "Chai Point" (Some (48 # 10));
    cafe "Dhaba" None; cafe "Espresso Lane" (Some (48 # 10)) ].

Definition cafes_nearby : Services :=
  {| GOOGLE_MAPS_API_KEY := "KEY";
     str_float := fun _ => "0.0";
     polyline_decode := fun _ => Some [origin];
     directions := fun _ _ => Some one_route;
     nearby_keyword := fun _ _ => None;
     nearby_restaurant := fun _ => Some cafes;
     streetview_metadata := fun _ => None;
     streetview_image := fun _ => None;
     imread := fun _ => None;
     mimsave := fun _ => [];
     generate_content := fun _ => None;
     generate_content_stream := fun _ => None;
     unicode_isdigit := fun _ => false;
     unicode_decimal := fun _ => None |}.

(** A route of 25 points with street imagery at its second and third
    points only; the image at the second point does not decode. *)
Definition waypoint (i : nat) : point := (inject_Z (Z.of_nat i), 0%Q).

Definition path25 : list point := waypoint <$> seq 0 25.

Definition patchy_imagery : Services :=
  {| GOOGLE_MAPS_API_KEY := "KEY";
     str_float := fun q => str_Z (Qnum q);
     polyline_decode := fun _ => Some path25;
     directions := fun _ _ => Some one_route;
     nearby_keyword := fun _ _ => None;
     nearby_restaurant := fun _ => None;
     streetview_metadata := fun pt =>
       if bool_decide (Qnum pt.1 = 1%Z) || bool_decide (Qnum pt.1 = 2%Z)
       then Some {| status := Some "OK" |}
       else Some {| status := Some "ZERO_RESULTS" |};
     streetview_image := fun pt =>
       Some {| status_code := 200;
               content := if bool_decide (Qnum pt.1 = 1%Z)
                          then [] else [Byte.x47; Byte.x49; Byte.x46] |};
     imread := fun bytes =>
       match bytes with
       | [] => None
       | _ :: _ => Some [N.of_nat (length bytes)]
       end;
     mimsave := fun frames => [Byte.x47];
     generate_content := fun _ => None;
     generate_content_stream := fun _ => None;
     unicode_isdigit := fun _ => false;
     unicode_decimal := fun _ => None |}.

(** Three routes with 2, 5 and 1 scenic spots, and a generative model that
    answers [response] to every prompt ([None]: the call raises). *)
Definition vista : ScenicSpot :=
  {| spot_name := "Vista"; photo_reference := "ref" |}.

Definition route_with (label : string) (spots : nat) : Route :=
  {| route_id := label; summary := "NH 48"; distance_text := "150 km";
     duration_text := "3 hours"; polyline := "_p~iF~ps|U";
     scenic_spots := replicate spots vista |}.

Definition three_routes : list Route :=
  [ route_with "Route 1" 2; route_with "Route 2" 5; route_with "Route 3" 1 ].

Definition says (response : option string) : Services :=
  {| GOOGLE_MAPS_API_KEY := "KEY";
     str_float := fun _ => "0.0";
     polyline_decode := fun _ => Some [origin];
     directions := fun _ _ => Some one_route;
     nearby_keyword := fun _ _ => None;
     nearby_restaurant := fun _ => None;
     streetview_metadata := fun _ => None;
     streetview_image := fun _ => None;
     imread := fun _ => None;
     mimsave := fun _ => [];
     generate_content := fun _ => response;
     generate_content_stream := fun _ => None;
     unicode_isdigit := fun _ => false;
     unicode_decimal := fun _ => None |}.

(** The same model on an interpreter whose Unicode database knows the
    Devanagari digits (U+0966 to U+096F) and the fullwidth digits (U+FF10 to
    U+FF19) as decimal digits, and the superscript two (U+00B2) as a digit
    without a decimal value. *)
Definition says_in_scripts (response : option string) : Services :=
  {| GOOGLE_MAPS_API_KEY := "KEY";
     str_float := fun _ => "0.0";
     polyline_decode := fun _ => Some [origin];
     directions := fun _ _ => Some one_route;
     nearby_keyword := fun _ _ => None;
     nearby_restaurant := fun _ => None;
     streetview_metadata := fun _ => None;
     streetview_image := fun _ => None;
     imread := fun _ => None;
     mimsave := fun _ => [];
     generate_content := fun _ => response;
     generate_content_stream := fun _ => None;
     unicode_isdigit := fun c =>
       ((2406 <=? c) && (c <=? 2415) || (65296 <=? c) && (c <=? 65305)
        || (c =? 178))%N;
     unicode_decimal := fun c =>
       if ((2406 <=? c) && (c <=? 2415))%N then Some (c - 2406)%N
       else if ((65296 <=? c) && (c <=? 65305))%N then Some (c - 65296)%N
       else None |}.




(** An answer of 4301 digits. *)
Definition long_answer : string :=
  String.concat EmptyString (replicate 4301 "1").

(** A complete report: one grid image, one spot, two pit stops. *)
Definition sample_report : ReportData :=
  {| start_destination := "Pune";
     end_destination := "Goa";
     chosen_route := route_with "Route 1" 1;
     ai_narrative := "A winding coastal drive.";
     map_url := "https://maps.googleapis.com/maps/api/staticmap?size=600x400";
     grid_urls := Some ["https://maps.googleapis.com/maps/api/streetview?size=400x300"];
     report_scenic_spots := [vista];
     pit_stops := pit_stop_of <$> take 2 cafes;
     drive_gif := Some {| getvalue := [Byte.x47; Byte.x49; Byte.x46];
                          position := 0 |} |}.

(** Directions raises for every pair of places. *)
Definition no_directions : Services :=
  {| GOOGLE_MAPS_API_KEY := "KEY";
     str_float := fun _ => "0.0";
     polyline_decode := fun _ => Some [origin];
     directions := fun _ _ => None;
     nearby_keyword := fun _ _ => None;
     nearby_restaurant := fun _ => None;
     streetview_metadata := fun _ => None;
     streetview_image := fun _ => None;
     imread := fun _ => None;
     mimsave := fun _ => [];
     generate_content := fun _ => None;
     generate_content_stream := fun _ => None;
     unicode_isdigit := fun _ => false;
     unicode_decimal := fun _ => None |}.

(** ** Theorems *)

Section Sampler.

Lemma sample_index_lt (K L i : nat) :
  1 <= L -> i < K -> sample_index K L i < L.
Proof.
  intros HL Hi. unfold sample_index.
  apply Nat.Div0.div_lt_upper_bound. nia.
Qed.

Lemma range_bounds (first stop i : nat) :
  i ∈ range first stop -> first <= i < stop.
Proof.
  unfold range. rewrite list_elem_of_In, in_seq. lia.
Qed.

Lemma comprehension_subscript_ok {A : Type} (path : list A) (f : nat -> nat)
      (l : list nat) :
  (forall i, i ∈ l -> f i < length path) ->
  exists pts, comprehension (fun i => subscript path (f i)) l = Ok pts
              /\ length pts = length l
              /\ forall j i, l !! j = Some i -> pts !! j = path !! f i.
Proof.
  induction l as [|i l IH]; intros Hb.
  - exists []. split; [reflexivity|]. split; [reflexivity|].
    intros j i Hj. rewrite lookup_nil in Hj. discriminate.
  - destruct IH as (pts & Hpts & Hlen & Hnth).
    { intros k Hk. apply Hb. by right. }
    assert (Hi : f i < length path) by (apply Hb; by left).
    destruct (lookup_lt_is_Some_2 path (f i) Hi) as [x Hx].
    exists (x :: pts). split; [|split].
    + cbn [comprehension]. rewrite Hpts. unfold subscript. by rewrite Hx.
    + cbn. by rewrite Hlen.
    + intros [|j] k Hj; cbn in *.
      * injection Hj as <-. by rewrite Hx.
      * by apply Hnth.
Qed.

Lemma sample_points_ok (first K : nat) (path : list point) :
  1 <= length path -> 1 <= K ->
  exists pts, sample_points first K path = Ok pts
    /\ length pts = K - first
    /\ forall j, j < K - first ->
         pts !! j = path !! ((first + j) * length path / K).
Proof.
  intros HL HK.
  destruct (comprehension_subscript_ok path (sample_index K (length path))
              (range first K)) as (pts & Hpts & Hlen & Hnth).
  - intros i Hi. apply range_bounds in Hi. apply sample_index_lt; lia.
  - exists pts. split; [exact Hpts|]. unfold range in *.
    rewrite length_seq in Hlen. split; [exact Hlen|].
    intros j Hj. apply (Hnth j (first + j)). by apply lookup_seq_lt.
Qed.

Lemma nonempty_length {A : Type} (l : list A) : l ≠ [] -> 1 <= length l.
Proof. destruct l; [done | cbn; lia]. Qed.

Lemma scenic_sample_points_ok (path : list point) :
  path ≠ [] -> exists pts, scenic_sample_points path = Ok pts /\ length pts = 7.
Proof.
  intros Hne%nonempty_length.
  destruct (sample_points_ok 0 7 path Hne ltac:(lia)) as (pts & Hpts & Hlen & _).
  by exists pts.
Qed.

Lemma preview_sample_points_ok (path : list point) :
  path ≠ [] -> exists pts, preview_sample_points path = Ok pts /\ length pts = 24.
Proof.
  intros Hne%nonempty_length.
  destruct (sample_points_ok 1 25 path Hne ltac:(lia)) as (pts & Hpts & Hlen & _).
  by exists pts.
Qed.

End Sampler.

(** C6. For a decoded path of length [L >= 1] and a sample count [K >= 1],
    every index [i * L / K] with [i] in [first .. K-1] (first = 0, or 1 when
    the start is excluded) lies in [[0, L-1]], also when [L < K]; hence both
    samplers of the source read the path without an [IndexError].  The index
    sequence is a function of [first], [K] and [L] alone, and for [K = 7],
    [L = 100] it is [0,14,28,42,57,71,85]. *)
Theorem geo_sampler_in_bounds (first K : nat) (path : list point) :
  1 <= length path -> 1 <= K ->
  (forall idx, idx ∈ sample_indices first K (length path) ->
               0 <= idx <= length path - 1)
  /\ (exists pts, sample_points first K path = Ok pts
                  /\ length pts = K - first
                  /\ forall j, j < K - first ->
                       pts !! j = path !! ((first + j) * length path / K))
  /\ (exists pts7, scenic_sample_points path = Ok pts7 /\ length pts7 = 7)
  /\ (exists pts24, preview_sample_points path = Ok pts24 /\ length pts24 = 24)
  /\ (forall path' : list point, length path' = length path ->
        sample_indices first K (length path') = sample_indices first K (length path))
  /\ sample_indices 0 7 100 = [0; 14; 28; 42; 57; 71; 85].
Proof.
  intros HL HK.
  assert (Hne : path ≠ []) by (intros ->; cbn in HL; lia).
  split; [|split; [|split; [|split; [|split]]]].
  - intros idx Hidx. unfold sample_indices in Hidx.
    apply list_elem_of_fmap in Hidx as (i & -> & Hi).
    apply range_bounds in Hi.
    pose proof (sample_index_lt K (length path) i HL ltac:(lia)). lia.
  - by apply sample_points_ok.
  - by apply scenic_sample_points_ok.
  - by apply preview_sample_points_ok.
  - intros path' ->. reflexivity.
  - reflexivity.
Qed.

Lemma geo_sampler_in_bounds_witness :
  exists pts, sample_points 1 25 [(0#1, 0#1)%Q; (1#1, 1#1)%Q] = Ok pts
              /\ length pts = 24.
Proof.
  destruct (geo_sampler_in_bounds 1 25 [(0#1, 0#1)%Q; (1#1, 1#1)%Q])
    as (_ & (pts & Hpts & Hlen & _) & _); [simpl; lia | lia |].
  exists pts. split; [exact Hpts | exact Hlen].
Defined.

(** *** Scenic scorer *)

Lemma Qgtb_spec (x y : Q) : Qgtb x y = true <-> (y < x)%Q.
Proof.
  unfold Qgtb. rewrite negb_true_iff, <- not_true_iff_false, Qle_bool_iff.
  split; [apply Qnot_le_lt | apply Qlt_not_le].
Qed.

Lemma accepts_spec (p : Place) :
  accepts p = true <->
  photos p ≠ []
  /\ (exists r, rating p = Some r /\ (4 < r)%Q)
  /\ (exists t, t ∈ types p /\ t ∈ allowed_types).
Proof.
  unfold accepts. rewrite !andb_true_iff, bool_decide_eq_true, Qgtb_spec.
  rewrite negb_true_iff, bool_decide_eq_false.
  split.
  - intros [[Hph Hr] Hty]. split; [exact Hph|]. split.
    + destruct (rating p) as [r|]; cbn in Hr.
      * by exists r.
      * exfalso. revert Hr. apply Qle_not_lt. discriminate.
    + rewrite disjoint_intersection_L in Hty.
      apply set_choose_L in Hty as [t Ht].
      apply elem_of_intersection in Ht as [Ha Ht].
      exists t. split; [|exact Ha]. by apply elem_of_list_to_set in Ht.
  - intros (Hph & (r & Hr & Hlt) & (t & Ht & Ha)).
    split; [split; [exact Hph|]|].
    + by rewrite Hr.
    + intros Hdis. apply (Hdis t); [exact Ha|]. by apply elem_of_list_to_set.
Qed.

(** C3. A raw place record passes the filter of the scenic scorer exactly
    when it has at least one photo reference, a rating strictly greater than
    4.0 and a type in the allow-list of seven tags; an accepted record enters
    the mapping and a rejected one leaves it unchanged.  A rating of exactly
    4.0 is rejected, and so are a rating of 4.1 without a photo and a rating
    of 4.1 with a photo and the single type "restaurant". *)
Theorem scenic_filter_iff (p : Place) :
  (accepts p = true <->
     photos p ≠ []
     /\ (exists r, rating p = Some r /\ (4 < r)%Q)
     /\ (exists t, t ∈ types p /\ t ∈ allowed_types))
  /\ size allowed_types = 7
  /\ (accepts p = true ->
        exists photo rest, photos p = photo :: rest
          /\ scan_results [] [p]
             = [(place_id p, {| spot_name := name p; photo_reference := photo |})])
  /\ (accepts p = false -> forall d, scan_results d [p] = d)
  /\ accepts (place "id" "Falls" ["ref"] (Some (40 # 10)) ["park"]) = false
  /\ accepts (place "id" "Falls" ["ref"] (Some (41 # 10)) ["park"]) = true
  /\ accepts (place "id" "Falls" [] (Some (41 # 10)) ["park"]) = false
  /\ accepts (place "id" "Diner" ["ref"] (Some (41 # 10)) ["restaurant"]) = false.
Proof.
  split; [apply accepts_spec|]. split; [by vm_compute|].
  split; [|split; [|repeat split; by vm_compute]].
  - intros Hacc. pose proof Hacc as Hspec. apply accepts_spec in Hspec as (Hph & _).
    destruct (photos p) as [|photo rest] eqn:Hphotos; [done|].
    exists photo, rest. split; [reflexivity|].
    unfold scan_results, scan_place. cbn. by rewrite Hacc, Hphotos.
  - intros Hrej d. unfold scan_results, scan_place. cbn. by rewrite Hrej.
Qed.

Lemma scenic_filter_iff_witness :
  exists photo rest,
    photos (place "id" "Falls" ["ref"] (Some (41 # 10)) ["park"]) = photo :: rest
    /\ scan_results [] [place "id" "Falls" ["ref"] (Some (41 # 10)) ["park"]]
       = [("id", {| spot_name := "Falls"; photo_reference := photo |})].
Proof.
  destruct (scenic_filter_iff (place "id" "Falls" ["ref"] (Some (41 # 10)) ["park"]))
    as (_ & _ & H & _).
  apply H. by vm_compute.
Defined.

Section Dict.

Context {V : Type}.
Implicit Types (d : dict V) (k : string) (v : V).

Lemma dict_get_set d k v k' :
  dict_get (dict_set d k v) k' = if decide (k = k') then Some v else dict_get d k'.
Proof.
  induction d as [|[k0 v0] d IH]; cbn.
  - repeat case_decide; congruence.
  - repeat (case_decide; cbn); try congruence.
Qed.

Lemma dict_keys_set d k v :
  dict_keys (dict_set d k v)
  = if decide (k ∈ dict_keys d) then dict_keys d else dict_keys d ++ [k].
Proof.
  unfold dict_keys. induction d as [|[k0 v0] d IH]; cbn.
  - case_decide as H; [by apply elem_of_nil in H | reflexivity].
  - destruct (decide (k0 = k)) as [->|Hne]; cbn.
    + rewrite decide_True; [reflexivity | by left].
    + rewrite IH. destruct (decide (k ∈ d.*1)) as [Hin|Hout].
      * rewrite decide_True; [reflexivity | by right].
      * rewrite decide_False; [reflexivity|].
        intros [->|?]%elem_of_cons; congruence.
Qed.

Lemma dict_keys_set_elem d k v k' :
  k' ∈ dict_keys (dict_set d k v) <-> k' ∈ dict_keys d \/ k' = k.
Proof.
  rewrite dict_keys_set. case_decide as H.
  - split; [by left | intros [?| ->]; done].
  - rewrite elem_of_app, list_elem_of_singleton. reflexivity.
Qed.

Lemma dict_keys_set_NoDup d k v :
  NoDup (dict_keys d) -> NoDup (dict_keys (dict_set d k v)).
Proof.
  intros Hnd. rewrite dict_keys_set. case_decide as H; [exact Hnd|].
  apply NoDup_app. split; [exact Hnd|]. split.
  - intros x Hx ->%list_elem_of_singleton. contradiction.
  - apply NoDup_singleton.
Qed.

End Dict.

Lemma scan_place_accept (d : dict ScenicSpot) (p : Place) :
  accepts p = true ->
  exists spot, spot_of p = Some spot /\ scan_place d p = dict_set d (place_id p) spot.
Proof.
  intros Hacc. unfold scan_place, spot_of. rewrite Hacc.
  apply accepts_spec in Hacc as (Hph & _).
  destruct (photos p) as [|photo rest]; [done|]. cbn. eauto.
Qed.

Lemma scan_place_reject (d : dict ScenicSpot) (p : Place) :
  accepts p = false -> scan_place d p = d.
Proof. intros Hrej. unfold scan_place. by rewrite Hrej. Qed.

Lemma scan_results_NoDup (results : list Place) (d : dict ScenicSpot) :
  NoDup (dict_keys d) -> NoDup (dict_keys (scan_results d results)).
Proof.
  unfold scan_results. revert d.
  induction results as [|p results IH]; intros d Hnd; cbn; [exact Hnd|].
  apply IH. destruct (accepts p) eqn:Hacc.
  - destruct (scan_place_accept d p Hacc) as (spot & _ & ->).
    by apply dict_keys_set_NoDup.
  - by rewrite scan_place_reject.
Qed.

Lemma scan_results_keys (results : list Place) (d : dict ScenicSpot) (pid : string) :
  pid ∈ dict_keys (scan_results d results) <->
  pid ∈ dict_keys d
  \/ exists p, p ∈ results /\ accepts p = true /\ place_id p = pid.
Proof.
  unfold scan_results. revert d.
  induction results as [|p results IH]; intros d; cbn [foldl].
  - split; [by left|]. intros [H|(p & Hp & _)]; [exact H|].
    by apply elem_of_nil in Hp.
  - rewrite IH. destruct (accepts p) eqn:Hacc.
    + destruct (scan_place_accept d p Hacc) as (spot & _ & ->).
      rewrite dict_keys_set_elem. split.
      * intros [[H| ->]|(q & Hq & Hqa & Hqid)]; [by left| |].
        -- right. exists p. split; [by left|done].
        -- right. exists q. split; [by right|done].
      * intros [H|(q & Hq & Hqa & Hqid)]; [by left; left|].
        apply elem_of_cons in Hq as [->|Hq]; [left; by right|].
        right. by exists q.
    + rewrite scan_place_reject by exact Hacc. split.
      * intros [H|(q & Hq & Hqa & Hqid)]; [by left|].
        right. exists q. split; [by right|done].
      * intros [H|(q & Hq & Hqa & Hqid)]; [by left|].
        apply elem_of_cons in Hq as [->|Hq]; [congruence|].
        right. by exists q.
Qed.

Lemma scan_results_get (results : list Place) (d : dict ScenicSpot) (pid : string) :
  dict_get (scan_results d results) pid
  = match last (List.filter (accepted_as pid) results) with
    | Some p => spot_of p
    | None => dict_get d pid
    end.
Proof.
  unfold scan_results. revert d.
  induction results as [|p results IH]; intros d; cbn [foldl List.filter last];
    [reflexivity|].
  rewrite IH. unfold accepted_as at 2. destruct (accepts p) eqn:Hacc;
    cbn [andb].
  - destruct (scan_place_accept d p Hacc) as (spot & Hspot & ->).
    rewrite dict_get_set.
    destruct (decide (place_id p = pid)) as [Heq|Hne].
    + rewrite bool_decide_eq_true_2 by exact Heq.
      destruct (List.filter (accepted_as pid) results) as [|q l] eqn:Hf;
        cbn; [by rewrite Hspot|].
      destruct (last (q :: l)) eqn:Hl; [reflexivity|].
      by apply last_None in Hl.
    + rewrite bool_decide_eq_false_2 by exact Hne. reflexivity.
  - by rewrite scan_place_reject.
Qed.

Lemma scan_keyword_records (w : Services) (pt : point) (kws : list string)
      (d : dict ScenicSpot) :
  foldl (scan_keyword w pt) d kws
  = scan_results d (kw ← kws; default [] (nearby_keyword w pt kw)).
Proof.
  unfold scan_results. revert d.
  induction kws as [|kw kws IH]; intros d; [reflexivity|].
  rewrite bind_cons, foldl_app. cbn [foldl]. rewrite IH. f_equal.
  unfold scan_keyword, scan_results. by destruct (nearby_keyword w pt kw).
Qed.

Lemma scan_point_records (w : Services) (pts : list point) (d : dict ScenicSpot) :
  foldl (scan_point w) d pts = scan_results d (processed_records w pts).
Proof.
  unfold processed_records, scan_results. revert d.
  induction pts as [|pt pts IH]; intros d; [reflexivity|].
  rewrite bind_cons, foldl_app. cbn [foldl]. rewrite IH. f_equal.
  unfold scan_point. apply scan_keyword_records.
Qed.

Lemma decode_ok (w : Services) (s : string) (path : list point) :
  polyline_decode w s = Some path -> decode w s = Ok path.
Proof. intros H. unfold decode. by rewrite H. Qed.

Lemma get_scenic_spots_eq (w : Services) (s : string) (path pts : list point) :
  polyline_decode w s = Some path -> scenic_sample_points path = Ok pts ->
  get_scenic_spots w s = Ok (dict_values (foldl (scan_point w) [] pts)).
Proof.
  intros Hdec Hpts. unfold get_scenic_spots, decode. rewrite Hdec.
  unfold mbind, result_bind. by rewrite Hpts.
Qed.

(** C2, as the code has it.  The scorer keeps one spot per place identifier:
    the mapping it builds from the records it scans has no duplicate key, a
    key for exactly the identifiers of the accepted records, and under each
    key the name and photo reference of the last accepted record with that
    identifier.  In particular two accepted records that share an identifier
    yield exactly one spot, which carries the name and photo of the second. *)
Theorem scenic_dedup_last_seen (w : Services) (route_polyline : string)
    (path : list point) :
  polyline_decode w route_polyline = Some path -> path ≠ [] ->
  (exists sample_points,
     scenic_sample_points path = Ok sample_points
     /\ let records := processed_records w sample_points in
        let d := scan_results [] records in
        get_scenic_spots w route_polyline = Ok (dict_values d)
        /\ NoDup (dict_keys d)
        /\ length (dict_values d) = length (dict_keys d)
        /\ forall pid,
             (pid ∈ dict_keys d <->
                exists p, p ∈ records /\ accepts p = true /\ place_id p = pid)
             /\ dict_get d pid
                = last (List.filter (accepted_as pid) records) ≫= spot_of)
  /\ (forall first second : Place,
        accepts first = true -> accepts second = true ->
        place_id first = place_id second ->
        exists spot, spot_of second = Some spot
          /\ scan_results [] [first; second] = [(place_id first, spot)]).
Proof.
  intros Hdec Hne. split.
  - destruct (scenic_sample_points_ok path Hne) as (pts & Hpts & _).
    exists pts. split; [exact Hpts|]. cbn zeta. split; [|split; [|split]].
    + rewrite (get_scenic_spots_eq w _ path pts Hdec Hpts).
      by rewrite scan_point_records.
    + apply scan_results_NoDup. constructor.
    + unfold dict_values, dict_keys. by rewrite !length_fmap.
    + intros pid. split.
      * rewrite scan_results_keys. split; [|by right].
        intros [H|H]; [by apply elem_of_nil in H | exact H].
      * rewrite scan_results_get.
        by destruct (last (List.filter (accepted_as pid) _)).
  - intros first second Hf Hs Hid.
    destruct (scan_place_accept [] first Hf) as (spot1 & _ & H1).
    destruct (scan_place_accept (scan_place [] first) second Hs) as (spot2 & Hs2 & H2).
    exists spot2. split; [exact Hs2|].
    unfold scan_results. cbn [foldl]. rewrite H2, H1, <- Hid. cbn.
    by rewrite decide_True.
Qed.

Lemma scenic_dedup_last_seen_witness :
  exists spot, spot_of falls_new = Some spot
    /\ scan_results [] [falls_old; falls_new] = [(place_id falls_old, spot)].
Proof.
  destruct (scenic_dedup_last_seen two_listings "_p~iF~ps|U" [origin])
    as (_ & H); [reflexivity | discriminate |].
  apply H; by vm_compute.
Defined.

(** C2 as stated fails: the two listings of the waterfall share a place
    identifier and are both accepted, the scorer returns one spot, and that
    spot has the name and photo of the second listing, not of the first. *)
Lemma scenic_dedup_first_seen_fails :
  accepts falls_old = true /\ accepts falls_new = true
  /\ place_id falls_old = place_id falls_new
  /\ get_scenic_spots two_listings "_p~iF~ps|U"
     = Ok [ {| spot_name := "New Falls"; photo_reference := "photo-new" |} ]
  /\ spot_of falls_old
     = Some {| spot_name := "Old Falls"; photo_reference := "photo-old" |}
  /\ ~ (forall first second : Place,
          accepts first = true -> accepts second = true ->
          place_id first = place_id second ->
          exists spot, spot_of first = Some spot
            /\ dict_values (scan_results [] [first; second]) = [spot]).
Proof.
  repeat (split; [by vm_compute|]).
  intros H. destruct (H falls_old falls_new) as (spot & Hspot & Hout);
    [by vm_compute | by vm_compute | reflexivity |].
  vm_compute in Hspot, Hout. congruence.
Qed.

(** *** Pit-stop ranker *)

Section SortedFacts.

Context {A : Type} (key : A -> Q).

#[local] Abbreviation asc := (fun a b : A => (key a <= key b)%Q).
#[local] Abbreviation desc := (fun a b : A => (key b <= key a)%Q).
#[local] Abbreviation has_key k := (fun a : A => Qeq_bool (key a) k).

Lemma insert_by_perm (x : A) (l : list A) : insert_by key x l ≡ₚ x :: l.
Proof.
  induction l as [|y l IH]; cbn; [reflexivity|].
  destruct (Qle_bool (key x) (key y)); [reflexivity|].
  rewrite IH. apply Permutation_swap.
Qed.

Lemma sort_by_perm (l : list A) : sort_by key l ≡ₚ l.
Proof.
  induction l as [|x l IH]; cbn; [reflexivity|].
  by rewrite insert_by_perm, IH.
Qed.

Lemma insert_by_sorted (x : A) (l : list A) :
  StronglySorted asc l -> StronglySorted asc (insert_by key x l).
Proof.
  induction l as [|y l IH]; intros Hl; cbn.
  - repeat constructor.
  - apply StronglySorted_cons in Hl as [Hy Hl].
    destruct (Qle_bool (key x) (key y)) eqn:Hxy.
    + apply Qle_bool_iff in Hxy.
      constructor; [by constructor|]. constructor; [exact Hxy|].
      eapply Forall_impl; [exact Hy|]. intros z Hz. cbv beta in *.
      by apply Qle_trans with (key y).
    + constructor; [by apply IH|].
      rewrite insert_by_perm. constructor; [|exact Hy].
      cbv beta. apply Qlt_le_weak, Qnot_le_lt.
      rewrite <- Qle_bool_iff. by rewrite Hxy.
Qed.

Lemma sort_by_sorted (l : list A) : StronglySorted asc (sort_by key l).
Proof.
  induction l as [|x l IH]; cbn; [constructor | by apply insert_by_sorted].
Qed.

Lemma rev_sorted (l : list A) :
  StronglySorted asc l -> StronglySorted desc (rev l).
Proof.
  induction 1 as [|x l Hl IH Hx]; cbn; [constructor|].
  apply StronglySorted_app_2; [|exact IH|repeat constructor].
  intros a b Ha ->%list_elem_of_singleton.
  rewrite Forall_forall in Hx. apply Hx.
  apply list_elem_of_In, in_rev. by apply list_elem_of_In.
Qed.

Lemma insert_by_filter (k : Q) (x : A) (l : list A) :
  List.filter (has_key k) (insert_by key x l) = List.filter (has_key k) (x :: l).
Proof.
  induction l as [|y l IH]; [reflexivity|]. cbn [insert_by].
  destruct (Qle_bool (key x) (key y)) eqn:Hxy; [reflexivity|].
  cbn [List.filter] in *. rewrite IH.
  destruct (has_key k x) eqn:Hx; [|reflexivity].
  destruct (has_key k y) eqn:Hy; [|reflexivity].
  exfalso. cbv beta in *. apply Qeq_bool_iff in Hx, Hy.
  apply not_true_iff_false in Hxy. apply Hxy, Qle_bool_iff.
  rewrite Hx, Hy. apply Qle_refl.
Qed.

Lemma sort_by_filter (k : Q) (l : list A) :
  List.filter (has_key k) (sort_by key l) = List.filter (has_key k) l.
Proof.
  induction l as [|x l IH]; [reflexivity|]. cbn [sort_by].
  rewrite insert_by_filter. cbn [List.filter]. by rewrite IH.
Qed.

Lemma filter_rev (f : A -> bool) (l : list A) :
  List.filter f (rev l) = rev (List.filter f l).
Proof.
  induction l as [|x l IH]; [reflexivity|]. cbn.
  rewrite List.filter_app, IH. cbn. destruct (f x); cbn; [reflexivity|].
  by rewrite app_nil_r.
Qed.

Lemma sorted_reverse_perm (l : list A) : sorted key true l ≡ₚ l.
Proof.
  unfold sorted. by rewrite <- Permutation_rev, sort_by_perm, <- Permutation_rev.
Qed.

Lemma sorted_reverse_desc (l : list A) :
  StronglySorted (fun a b => (key b <= key a)%Q) (sorted key true l).
Proof. unfold sorted. apply rev_sorted, sort_by_sorted. Qed.

Lemma sorted_reverse_stable (k : Q) (l : list A) :
  List.filter (fun a => Qeq_bool (key a) k) (sorted key true l)
  = List.filter (fun a => Qeq_bool (key a) k) l.
Proof.
  unfold sorted.
  by rewrite filter_rev, sort_by_filter, filter_rev, rev_involutive.
Qed.

End SortedFacts.

Lemma get_pit_stops_eq (w : Services) (s : string) (path : list point)
      (midpoint : point) :
  polyline_decode w s = Some path ->
  path !! (length path / 2) = Some midpoint ->
  get_pit_stops w s
  = Ok (match nearby_restaurant w midpoint with
        | Some results => rank_pit_stops results
        | None => []
        end).
Proof.
  intros Hdec Hmid. unfold get_pit_stops, decode, subscript. rewrite Hdec.
  unfold mbind, result_bind. rewrite Hmid.
  by destruct (nearby_restaurant w midpoint).
Qed.

(** C4. The ranker returns the candidates sorted by rating in descending
    order, a missing rating counting as 0 in the sort and shown as "N/A";
    records with equal ratings keep their relative order, and at most five
    are returned.  Ratings 3.5, 4.8, missing, 4.8 give the two 4.8 records in
    their original order, then 3.5, then the unrated record. *)
Theorem pit_stops_ranked (w : Services) (route_polyline : string)
    (path : list point) (midpoint : point) (results : list Place) :
  polyline_decode w route_polyline = Some path ->
  path !! (length path / 2) = Some midpoint ->
  nearby_restaurant w midpoint = Some results ->
  let ranked := sorted sort_key true results in
  get_pit_stops w route_polyline = Ok (pit_stop_of <$> take 5 ranked)
  /\ ranked ≡ₚ results
  /\ StronglySorted (fun a b => (sort_key b <= sort_key a)%Q) ranked
  /\ (forall k, List.filter (fun p => Qeq_bool (sort_key p) k) ranked
                = List.filter (fun p => Qeq_bool (sort_key p) k) results)
  /\ (forall p, rating p = None ->
                sort_key p = 0%Q /\ stop_rating (pit_stop_of p) = NA)
  /\ (forall p r, rating p = Some r ->
                  sort_key p = r /\ stop_rating (pit_stop_of p) = Rated r)
  /\ length (pit_stop_of <$> take 5 ranked) = 5 `min` length results
  /\ length (pit_stop_of <$> take 5 ranked) <= 5
  /\ stop_name <$> rank_pit_stops cafes
     = ["Chai Point"; "Espresso Lane"; "Bean There"; "Dhaba"]
  /\ stop_rating <$> rank_pit_stops cafes
     = [Rated (48 # 10); Rated (48 # 10); Rated (35 # 10); NA]
  /\ length (rank_pit_stops (cafes ++ [cafe "Fika" None; cafe "Grind" None])) = 5.
Proof.
  intros Hdec Hmid Hres ranked.
  split; [by rewrite (get_pit_stops_eq w _ path midpoint Hdec Hmid), Hres|].
  split; [apply sorted_reverse_perm|].
  split; [apply sorted_reverse_desc|].
  split; [intros k; apply sorted_reverse_stable|].
  split; [intros p Hp; unfold sort_key, pit_stop_of; by rewrite Hp|].
  split; [intros p r Hp; unfold sort_key, pit_stop_of; by rewrite Hp|].
  assert (Hlen : length (pit_stop_of <$> take 5 ranked) = 5 `min` length results).
  { rewrite length_fmap, length_take. unfold ranked.
    by rewrite (Permutation_length (sorted_reverse_perm sort_key results)). }
  split; [exact Hlen|]. split; [lia|]. by vm_compute.
Qed.

Lemma pit_stops_ranked_witness :
  get_pit_stops cafes_nearby "_p~iF~ps|U"
  = Ok (pit_stop_of <$> take 5 (sorted sort_key true cafes)).
Proof.
  destruct (pit_stops_ranked cafes_nearby "_p~iF~ps|U" [origin] origin cafes)
    as (H & _); [reflexivity | reflexivity | reflexivity | exact H].
Defined.

(** *** Preview builder *)

Lemma frames_of_snoc (w : Services) (acc : list (point * ImageResponse))
      (x : point * ImageResponse) :
  frames_of w (acc ++ [x])
  = if bool_decide (length (frames_of w acc) < 10) then
      match decoded w x with
      | Some image => frames_of w acc ++ [image]
      | None => frames_of w acc
      end
    else frames_of w acc.
Proof.
  unfold frames_of. rewrite omap_app. cbn [omap list_omap].
  set (l := omap (decoded w) acc). rewrite length_take.
  case_bool_decide as Hlt.
  - assert (length l < 10) by lia.
    rewrite (take_ge l) by lia.
    destruct (decoded w x); cbn.
    + apply take_ge. rewrite length_app. cbn. lia.
    + rewrite app_nil_r. apply take_ge. lia.
  - rewrite take_app_le by lia. reflexivity.
Qed.

Lemma grid_of_snoc (w : Services) (acc : list (point * ImageResponse))
      (x : point * ImageResponse) :
  grid_of w (acc ++ [x]) = grid_of w acc ++ [street_view_image_url w x.1].
Proof. unfold grid_of. by rewrite fmap_app. Qed.

Lemma preview_step_spec (w : Services) (acc : list (point * ImageResponse))
      (pt : point) :
  preview_step w (frames_of w acc, grid_of w acc) pt
  = match fetched w pt with
    | Some image_response =>
        (frames_of w (acc ++ [(pt, image_response)]),
         grid_of w (acc ++ [(pt, image_response)]))
    | None => (frames_of w acc, grid_of w acc)
    end.
Proof.
  unfold preview_step, fetched.
  destruct (streetview_metadata w pt) as [meta_response|]; cbn; [|reflexivity].
  case_bool_decide as Hok; cbn.
  2: { rewrite option_guard_False by exact Hok. reflexivity. }
  rewrite option_guard_True by exact Hok. cbn.
  destruct (streetview_image w pt) as [image_response|]; cbn; [|reflexivity].
  case_bool_decide as H200; cbn.
  2: { rewrite option_guard_False by exact H200. reflexivity. }
  rewrite option_guard_True by exact H200. cbn.
  rewrite frames_of_snoc, grid_of_snoc. unfold decoded. cbn [fst snd].
  case_bool_decide; [|reflexivity].
  by destruct (imread w (content image_response)).
Qed.

Lemma preview_loop_spec (w : Services) (pts : list point)
      (acc : list (point * ImageResponse)) :
  length acc <= 12 ->
  preview_loop w pts (frames_of w acc, grid_of w acc)
  = (frames_of w (take 12 (acc ++ omap (fun pt => pair pt <$> fetched w pt) pts)),
     grid_of w (take 12 (acc ++ omap (fun pt => pair pt <$> fetched w pt) pts))).
Proof.
  revert acc. induction pts as [|pt pts IH]; intros acc Hacc.
  - cbn. rewrite app_nil_r, take_ge by lia. reflexivity.
  - cbn [preview_loop snd].
    assert (Hlen : length (grid_of w acc) = length acc)
      by (unfold grid_of; apply length_fmap).
    rewrite Hlen. case_bool_decide as Hfull.
    + rewrite take_app_le by lia. rewrite take_ge by lia. reflexivity.
    + rewrite preview_step_spec. cbn [omap list_omap].
      destruct (fetched w pt) as [image_response|]; cbn [fmap option_fmap option_map].
      * rewrite IH by (rewrite length_app; cbn; lia).
        by rewrite <- app_assoc.
      * by apply IH.
Qed.

Lemma create_drive_preview_assets_eq (w : Services) (s : string)
      (path pts : list point) :
  polyline_decode w s = Some path -> preview_sample_points path = Ok pts ->
  create_drive_preview_assets w s
  = match frames_of w (hits w pts) with
    | [] => Ok (None, None)
    | _ :: _ =>
        Ok (Some {| getvalue := mimsave w (frames_of w (hits w pts));
                    position := 0 |},
            Some (grid_of w (hits w pts)))
    end.
Proof.
  intros Hdec Hpts. unfold create_drive_preview_assets, decode. rewrite Hdec.
  unfold mbind, result_bind. rewrite Hpts.
  pose proof (preview_loop_spec w pts [] ltac:(cbn; lia)) as Hloop.
  cbn [app] in Hloop. fold (hits w pts) in Hloop.
  change (frames_of w []) with (@nil ndarray) in Hloop.
  change (grid_of w []) with (@nil string) in Hloop.
  rewrite Hloop. by destruct (frames_of w (hits w pts)).
Qed.

Lemma omap_all_Some {A B : Type} (f : A -> option B) (l : list A) :
  (forall x, x ∈ l -> is_Some (f x)) -> Some <$> omap f l = f <$> l.
Proof.
  induction l as [|x l IH]; intros Hall; [reflexivity|]. cbn.
  destruct (Hall x ltac:(by left)) as [y Hy]. rewrite Hy. cbn.
  f_equal. apply IH. intros z Hz. apply Hall. by right.
Qed.

Lemma take_min_length {A : Type} (n : nat) (l : list A) :
  take (n `min` length l) l = take n l.
Proof.
  destruct (decide (n <= length l)) as [Hle|Hgt].
  - by rewrite Nat.min_l.
  - rewrite Nat.min_r by lia. rewrite !take_ge by lia. reflexivity.
Qed.

(** C7, as the code has it.  A run of the preview builder raises when the
    polyline does not decode or decodes to no point, and returns otherwise.
    When it returns, the grid holds the image URLs of the first twelve
    sample points, in route order, whose street image was fetched; the
    animation holds at most ten frames, the first ten of those images that
    decode; when every fetched image decodes these are exactly the images of
    the first min(10, grid length) grid entries.  When no frame was decoded,
    and so when no image was fetched at all, both outputs are null. *)
Theorem preview_assets_bounded (w : Services) (polyline_str : string) :
  match polyline_decode w polyline_str with
  | None => create_drive_preview_assets w polyline_str = Raise DecodeError
  | Some [] => create_drive_preview_assets w polyline_str = Raise IndexError
  | Some (pt :: rest) =>
      exists sample_points,
        preview_sample_points (pt :: rest) = Ok sample_points
        /\ length sample_points = 24
        /\ let h := hits w sample_points in
           let grid := grid_of w h in
           let frames := frames_of w h in
           preview_loop w sample_points ([], []) = (frames, grid)
           /\ h = take 12 (omap (fun pt => pair pt <$> fetched w pt) sample_points)
           /\ length grid = length h /\ length grid <= 12
           /\ frames = take 10 (omap (decoded w) h) /\ length frames <= 10
           /\ ((forall x, x ∈ h -> is_Some (decoded w x)) ->
                 Some <$> frames = decoded w <$> take (10 `min` length grid) h)
           /\ create_drive_preview_assets w polyline_str
              = match frames with
                | [] => Ok (None, None)
                | _ :: _ =>
                    Ok (Some {| getvalue := mimsave w frames; position := 0 |},
                        Some grid)
                end
           /\ (h = [] ->
                 create_drive_preview_assets w polyline_str = Ok (None, None))
  end.
Proof.
  destruct (polyline_decode w polyline_str) as [[|pt0 path0]|] eqn:Hdec;
    [| |unfold create_drive_preview_assets, decode; by rewrite Hdec].
  { unfold create_drive_preview_assets, decode. by rewrite Hdec. }
  set (path := pt0 :: path0) in *.
  destruct (preview_sample_points_ok path ltac:(done)) as (pts & Hpts & Hlen).
  exists pts. split; [exact Hpts|]. split; [exact Hlen|]. cbn zeta.
  assert (Hgrid : length (grid_of w (hits w pts)) = length (hits w pts))
    by (unfold grid_of; apply length_fmap).
  assert (Hcreate := create_drive_preview_assets_eq w _ path pts Hdec Hpts).
  split.
  { pose proof (preview_loop_spec w pts [] ltac:(cbn; lia)) as Hloop.
    exact Hloop. }
  split; [reflexivity|]. split; [exact Hgrid|].
  split; [rewrite Hgrid; unfold hits; rewrite length_take; lia|].
  split; [reflexivity|].
  split; [unfold frames_of; rewrite length_take; lia|].
  split; [|split; [exact Hcreate|]].
  - intros Hall. unfold frames_of.
    rewrite fmap_take, (omap_all_Some _ _ Hall), <- fmap_take.
    by rewrite Hgrid, take_min_length.
  - intros Hnil. rewrite Hcreate, Hnil. reflexivity.
Qed.

Lemma preview_assets_bounded_witness :
  exists pts, preview_sample_points path25 = Ok pts
    /\ length (grid_of patchy_imagery (hits patchy_imagery pts)) <= 12
    /\ length (frames_of patchy_imagery (hits patchy_imagery pts)) <= 10.
Proof.
  pose proof (preview_assets_bounded patchy_imagery "_p~iF~ps|U") as H.
  change (polyline_decode patchy_imagery "_p~iF~ps|U")
    with (Some (waypoint 0 :: (waypoint <$> seq 1 24))) in H.
  destruct H as (pts & Hpts & _ & _ & _ & _ & Hg & _ & Hf & _).
  exists pts. split; [exact Hpts|]. split; [exact Hg | exact Hf].
Defined.

(** C7 as stated fails: on a route with imagery at two sample points, the
    first of which does not decode, the grid has two entries and the
    animation one frame, which is the image of the second grid entry. *)
Lemma preview_frames_not_first_grid_entries :
  exists pts,
    preview_sample_points path25 = Ok pts
    /\ hits patchy_imagery pts
       = [ (waypoint 1, {| status_code := 200; content := [] |});
           (waypoint 2, {| status_code := 200;
                           content := [Byte.x47; Byte.x49; Byte.x46] |}) ]
    /\ preview_loop patchy_imagery pts ([], [])
       = ([[3%N]], grid_of patchy_imagery (hits patchy_imagery pts))
    /\ create_drive_preview_assets patchy_imagery "_p~iF~ps|U"
       = Ok (Some {| getvalue := [Byte.x47]; position := 0 |},
             Some (grid_of patchy_imagery (hits patchy_imagery pts)))
    /\ length (grid_of patchy_imagery (hits patchy_imagery pts)) = 2
    /\ decoded patchy_imagery <$> take (10 `min` 2) (hits patchy_imagery pts)
       = [None; Some [3%N]]
    /\ length [[3%N]] ≠ 10 `min` 2.
Proof.
  exists (waypoint <$> seq 1 24). repeat split; try by vm_compute.
Qed.

(** *** Route selection *)

Section MaxBy.

Context {A : Type} (key : A -> nat).

#[local] Abbreviation step :=
  (fun best y : A => if bool_decide (key best < key y) then y else best).

Lemma foldl_first_max (l pre : list A) (best : A) :
  first_max key pre best ->
  first_max key (pre ++ l) (foldl step best l).
Proof.
  revert pre best. induction l as [|y l IH]; intros pre best Hbest.
  - by rewrite app_nil_r.
  - cbn [foldl]. rewrite (cons_middle y pre l), app_assoc. apply IH.
    destruct Hbest as (i & Hi & Hmax & Hfirst).
    assert (Hilt : i < length pre) by (by eapply lookup_lt_Some).
    cbv beta. case_bool_decide as Hlt.
    + exists (length pre). split; [|split].
      * rewrite lookup_app_r by lia. by rewrite Nat.sub_diag.
      * intros z [Hz| ->%list_elem_of_singleton]%elem_of_app; [|lia].
        specialize (Hmax z Hz). lia.
      * intros j z Hj Hz. rewrite lookup_app_l in Hz by lia.
        apply list_elem_of_lookup_2 in Hz. specialize (Hmax z Hz). lia.
    + exists i. split; [|split].
      * by rewrite lookup_app_l.
      * intros z [Hz| ->%list_elem_of_singleton]%elem_of_app; [by apply Hmax|lia].
      * intros j z Hj Hz. rewrite lookup_app_l in Hz by lia.
        by apply (Hfirst j).
Qed.

Lemma max_by_first_max (l : list A) :
  l ≠ [] -> exists r, max_by key l = Ok r /\ first_max key l r.
Proof.
  destruct l as [|x l]; [done|]. intros _. eexists. split; [reflexivity|].
  apply (foldl_first_max l [x] x). exists 0. split; [reflexivity|]. split.
  - by intros y ->%list_elem_of_singleton.
  - intros j y Hj. lia.
Qed.

End MaxBy.

Lemma first_max_elem {A : Type} (key : A -> nat) (l : list A) (r : A) :
  first_max key l r -> r ∈ l.
Proof. intros (i & Hi & _). by eapply list_elem_of_lookup_2. Qed.

Lemma most_scenic_first_max (route_options : list Route) :
  route_options ≠ [] ->
  exists r, most_scenic route_options = Ok (Some r)
    /\ first_max (fun r => length (scenic_spots r)) route_options r.
Proof.
  intros Hne.
  destruct (max_by_first_max (fun r => length (scenic_spots r)) route_options Hne)
    as (r & Hr & Hmax).
  exists r. split; [|exact Hmax]. unfold most_scenic. by rewrite Hr.
Qed.

Lemma choose_route_fallback (route_options : list Route)
      (chosen_route_id : option string) :
  (chosen_route_id = None
   \/ exists cid, chosen_route_id = Some cid /\ cid ∉ route_id <$> route_options) ->
  choose_route route_options chosen_route_id = most_scenic route_options.
Proof.
  intros [->|(cid & -> & Hout)]; [reflexivity|]. unfold choose_route.
  rewrite (bool_decide_eq_false_2 _ Hout). by rewrite orb_true_r.
Qed.

Lemma choose_route_known (route_options : list Route) (cid : string) :
  cid ≠ EmptyString -> cid ∈ route_id <$> route_options ->
  choose_route route_options (Some cid)
  = Ok (find (fun r => bool_decide (route_id r = cid)) route_options)
  /\ exists r, find (fun r => bool_decide (route_id r = cid)) route_options = Some r
       /\ r ∈ route_options /\ route_id r = cid.
Proof.
  intros Hne Hin. split.
  - unfold choose_route.
    by rewrite (bool_decide_eq_false_2 _ Hne), (bool_decide_eq_true_2 _ Hin).
  - destruct (find _ route_options) as [r|] eqn:Hfind.
    + apply find_some in Hfind as [Hr Hid]. exists r. split; [reflexivity|].
      split; [by apply list_elem_of_In | by apply bool_decide_eq_true in Hid].
    + exfalso. apply list_elem_of_fmap in Hin as (r & -> & Hr).
      apply list_elem_of_In in Hr.
      pose proof (find_none _ _ Hfind r Hr) as Hf. cbn in Hf.
      by apply bool_decide_eq_false in Hf.
Qed.

Lemma choose_route_some (route_options : list Route)
      (chosen_route_id : option string) :
  route_options ≠ [] ->
  exists r, choose_route route_options chosen_route_id = Ok (Some r)
            /\ r ∈ route_options.
Proof.
  intros Hne.
  destruct (most_scenic_first_max route_options Hne) as (rmax & Hmost & Hmax).
  apply first_max_elem in Hmax.
  destruct chosen_route_id as [cid|]; [|by exists rmax].
  destruct (decide (cid = EmptyString)) as [->|Hcid]; [by exists rmax|].
  destruct (decide (cid ∈ route_id <$> route_options)) as [Hin|Hout].
  - destruct (choose_route_known route_options cid Hcid Hin)
      as (-> & r & -> & Hr & _). by exists r.
  - exists rmax. split; [|exact Hmax].
    rewrite choose_route_fallback; [exact Hmost|]. right. by exists cid.
Qed.

(** C5. When the route choice of the generative model is inconclusive
    ([None]) or names an identifier that no fetched route has, the
    orchestrator selects the route with the most scenic spots, the first
    such route on a tie.  With spot counts 2, 5, 1 and a response that does
    not parse (or a call that raises), the route with 5 spots is chosen. *)
Theorem fallback_most_scenic (route_options : list Route)
    (chosen_route_id : option string) :
  route_options ≠ [] ->
  (chosen_route_id = None
   \/ exists cid, chosen_route_id = Some cid /\ cid ∉ route_id <$> route_options) ->
  (exists r, choose_route route_options chosen_route_id = Ok (Some r)
     /\ first_max (fun r => length (scenic_spots r)) route_options r)
  /\ (fun r => length (scenic_spots r)) <$> three_routes = [2; 5; 1]
  /\ get_llm_choice (says (Some "I cannot decide.")) three_routes = None
  /\ get_llm_choice (says None) three_routes = None
  /\ choose_route three_routes None = Ok (Some (route_with "Route 2" 5))
  /\ choose_route three_routes (Some "Route 7")
     = Ok (Some (route_with "Route 2" 5)).
Proof.
  intros Hne Hfb. split; [|repeat split; by vm_compute].
  rewrite (choose_route_fallback _ _ Hfb). by apply most_scenic_first_max.
Qed.

Lemma fallback_most_scenic_witness :
  exists r, choose_route three_routes (Some "Route 23") = Ok (Some r)
    /\ first_max (fun r => length (scenic_spots r)) three_routes r.
Proof.
  destruct (fallback_most_scenic three_routes (Some "Route 23")) as (H & _);
    [discriminate | | exact H].
  right. exists "Route 23". split; [reflexivity|].
  apply (bool_decide_unpack _). by vm_compute.
Defined.

(** *** Comprehensions and route labels *)

Lemma comprehension_Forall2 {A B : Type} (f : A -> result B) (l : list A)
      (ys : list B) :
  comprehension f l = Ok ys <-> Forall2 (fun x y => f x = Ok y) l ys.
Proof.
  revert ys. induction l as [|x l IH]; intros ys; cbn.
  - split.
    + intros [= <-]. constructor.
    + intros ->%Forall2_nil_inv_l. reflexivity.
  - destruct (f x) as [y|e] eqn:Hfx; cbn.
    + destruct (comprehension f l) as [ys'|e'] eqn:Hl; cbn.
      * split.
        -- intros [= <-]. constructor; [exact Hfx | by apply IH].
        -- intros (y' & ys'' & Hy' & Hys'' & ->)%Forall2_cons_inv_l.
           apply IH in Hys''. congruence.
      * split; [discriminate|].
        intros (y' & ys'' & Hy' & Hys'' & ->)%Forall2_cons_inv_l.
        apply IH in Hys''. discriminate.
    + split; [discriminate|].
      intros (y' & ys'' & Hy' & _)%Forall2_cons_inv_l. congruence.
Qed.

Lemma comprehension_raises {A B : Type} (f : A -> result B) (l : list A) (e : exn) :
  comprehension f l = Raise e -> exists x, x ∈ l /\ f x = Raise e.
Proof.
  induction l as [|x l IH]; cbn; [discriminate|].
  destruct (f x) as [y|e'] eqn:Hfx; cbn.
  - destruct (comprehension f l) as [ys|e''] eqn:Hl; cbn; [discriminate|].
    intros [= ->]. destruct (IH eq_refl) as (z & Hz & Hfz).
    exists z. split; [by right | exact Hfz].
  - intros [= ->]. exists x. split; [by left | exact Hfx].
Qed.

Lemma enumerate_lookup {A : Type} (l : list A) (i : nat) (ix : nat * A) :
  enumerate l !! i = Some ix -> ix.1 = i /\ l !! i = Some ix.2.
Proof.
  unfold enumerate. destruct ix as [j x]. intros H.
  apply lookup_zip_with_Some in H as (j' & x' & [= <- <-] & Hj & Hx).
  apply lookup_seq in Hj as [-> _]. done.
Qed.

Lemma str_N_inj (a b : N) : str_N a = str_N b -> a = b.
Proof.
  unfold str_N. intros H.
  apply (f_equal NilEmpty.uint_of_string) in H. rewrite !NilEmpty.usu in H.
  injection H as H. apply (f_equal N.of_uint) in H.
  by rewrite !DecimalN.Unsigned.of_to in H.
Qed.

Lemma route_label_inj (a b : N) :
  "Route " +:+ str_N a = "Route " +:+ str_N b -> a = b.
Proof. cbn. intros [= H]. by apply str_N_inj. Qed.

Lemma get_route_options_labelled (w : Services) (start end_ : string)
      (fetched : list Route) :
  get_route_options w start end_ = Some fetched ->
  fetched ≠ [] /\ labelled fetched.
Proof.
  unfold get_route_options.
  destruct (directions w start end_) as [routes|]; [|discriminate].
  destruct routes as [|raw routes]; [discriminate|].
  destruct (comprehension route_of _) as [l|] eqn:Hl; [|discriminate].
  intros [= <-]. apply comprehension_Forall2 in Hl. split.
  - apply Forall2_length in Hl. unfold enumerate in Hl.
    rewrite length_zip, length_seq in Hl. cbn in Hl.
    intros ->. cbn in Hl. lia.
  - intros i r Hr.
    destruct (Forall2_lookup_r _ _ _ _ _ Hl Hr) as (ix & Hix & Hroute).
    apply enumerate_lookup in Hix as [<- _]. unfold route_of in Hroute.
    destruct (subscript (legs ix.2) 0); cbn in Hroute; [|discriminate].
    by injection Hroute as <-.
Qed.

Lemma attach_scenic_spots_fields (w : Services) (r r' : Route) :
  attach_scenic_spots w r = Ok r' ->
  route_id r' = route_id r /\ summary r' = summary r
  /\ distance_text r' = distance_text r /\ duration_text r' = duration_text r
  /\ polyline r' = polyline r
  /\ get_scenic_spots w (polyline r) = Ok (scenic_spots r').
Proof.
  unfold attach_scenic_spots.
  destruct (get_scenic_spots w (polyline r)) as [spots|]; cbn; [|discriminate].
  by intros [= <-].
Qed.

Lemma attach_all_labelled (w : Services) (fetched enriched : list Route) :
  comprehension (attach_scenic_spots w) fetched = Ok enriched ->
  length enriched = length fetched
  /\ (labelled fetched -> labelled enriched)
  /\ (forall r, r ∈ enriched ->
        exists r0, r0 ∈ fetched /\ attach_scenic_spots w r0 = Ok r).
Proof.
  intros H%comprehension_Forall2. split; [|split].
  - symmetry. by eapply Forall2_length.
  - intros Hlab i r Hr.
    destruct (Forall2_lookup_r _ _ _ _ _ H Hr) as (r0 & Hr0 & Hatt).
    apply attach_scenic_spots_fields in Hatt as (-> & _). by apply Hlab.
  - intros r (i & Hr)%list_elem_of_lookup_1.
    destruct (Forall2_lookup_r _ _ _ _ _ H Hr) as (r0 & Hr0 & Hatt).
    exists r0. split; [by eapply list_elem_of_lookup_2 | exact Hatt].
Qed.

(** *** Which exceptions the stages raise *)

Lemma bind_Raise_inv {A B : Type} (r : result A) (k : A -> result B) (e : exn) :
  r ≫= k = Raise e -> r = Raise e \/ exists a, r = Ok a /\ k a = Raise e.
Proof. destruct r as [a|e']; cbn; [right; by exists a | left; congruence]. Qed.

Lemma bind_Ok_inv {A B : Type} (r : result A) (k : A -> result B) (b : B) :
  r ≫= k = Ok b -> exists a, r = Ok a /\ k a = Ok b.
Proof. destruct r as [a|e']; cbn; [by exists a | discriminate]. Qed.

Lemma decode_crash (w : Services) (s : string) (e : exn) :
  decode w s = Raise e -> is_crash e.
Proof. unfold decode. destruct (polyline_decode w s); [discriminate|]. by intros [= <-]. Qed.

Lemma subscript_crash {A : Type} (l : list A) (i : nat) (e : exn) :
  subscript l i = Raise e -> is_crash e.
Proof. unfold subscript. destruct (l !! i); [discriminate|]. by intros [= <-]. Qed.

Lemma comprehension_crash {A B : Type} (f : A -> result B) (l : list A) (e : exn) :
  (forall x e', f x = Raise e' -> is_crash e') ->
  comprehension f l = Raise e -> is_crash e.
Proof. intros Hf (x & _ & Hx)%comprehension_raises. by eapply Hf. Qed.

Lemma sample_points_crash (first K : nat) (path : list point) (e : exn) :
  sample_points first K path = Raise e -> is_crash e.
Proof.
  apply comprehension_crash. intros i e'. apply subscript_crash.
Qed.

Lemma get_scenic_spots_crash (w : Services) (s : string) (e : exn) :
  get_scenic_spots w s = Raise e -> is_crash e.
Proof.
  unfold get_scenic_spots.
  intros [H|(path & _ & [H|(pts & _ & H)]%bind_Raise_inv)]%bind_Raise_inv.
  - by eapply decode_crash.
  - by eapply sample_points_crash.
  - discriminate.
Qed.

Lemma attach_scenic_spots_crash (w : Services) (r : Route) (e : exn) :
  attach_scenic_spots w r = Raise e -> is_crash e.
Proof.
  unfold attach_scenic_spots.
  intros [H|(spots & _ & H)]%bind_Raise_inv; [|discriminate].
  by eapply get_scenic_spots_crash.
Qed.

Lemma create_drive_preview_assets_crash (w : Services) (s : string) (e : exn) :
  create_drive_preview_assets w s = Raise e -> is_crash e.
Proof.
  unfold create_drive_preview_assets.
  intros [H|(path & _ & [H|(pts & _ & H)]%bind_Raise_inv)]%bind_Raise_inv.
  - by eapply decode_crash.
  - by eapply sample_points_crash.
  - destruct (preview_loop w pts ([], [])) as [[|] ?]; discriminate.
Qed.

Lemma get_pit_stops_crash (w : Services) (s : string) (e : exn) :
  get_pit_stops w s = Raise e -> is_crash e.
Proof.
  unfold get_pit_stops.
  intros [H|(path & _ & [H|(pt & _ & H)]%bind_Raise_inv)]%bind_Raise_inv.
  - by eapply decode_crash.
  - by eapply subscript_crash.
  - destruct (nearby_restaurant w pt); discriminate.
Qed.

(** The planning block, once the routes are fetched and enriched. *)
Lemma plan_after_fetch (w : Services) (start end_ : string)
      (fetched enriched : list Route) :
  get_route_options w start end_ = Some fetched ->
  comprehension (attach_scenic_spots w) fetched = Ok enriched ->
  exists chosen,
    choose_route enriched (get_llm_choice w enriched) = Ok (Some chosen)
    /\ chosen ∈ enriched
    /\ ((exists e, plan w start end_ = Raise e /\ is_crash e)
        \/ exists data, plan w start end_ = Ok data
                        /\ chosen_route data = chosen).
Proof.
  intros Hfetch Hatt.
  destruct (get_route_options_labelled _ _ _ _ Hfetch) as [Hne _].
  destruct (attach_all_labelled _ _ _ Hatt) as (Hlen & _ & _).
  assert (Hne' : enriched ≠ []).
  { intros ->. destruct fetched; [done | discriminate]. }
  destruct (choose_route_some enriched (get_llm_choice w enriched) Hne')
    as (r & Hr & Hin).
  exists r. split; [exact Hr|]. split; [exact Hin|].
  unfold plan. rewrite Hfetch. destruct fetched as [|r0 others]; [done|].
  rewrite Hatt. cbn [mbind result_bind]. rewrite Hr. cbn [mbind result_bind].
  destruct (create_drive_preview_assets w (polyline r)) as [assets|e] eqn:Hassets;
    cbn [mbind result_bind].
  2: { left. exists e. split; [reflexivity|].
       by eapply create_drive_preview_assets_crash. }
  destruct (get_pit_stops w (polyline r)) as [stops|e] eqn:Hstops;
    cbn [mbind result_bind].
  2: { left. exists e. split; [reflexivity|]. by eapply get_pit_stops_crash. }
  destruct (get_llm_narrative_stream w r) as [stream|];
    [|right; eexists; split; reflexivity].
  unfold narrative_texts. destruct (breaks stream); cbn [mbind result_bind].
  - left. exists StreamError. split; [reflexivity | exact I].
  - right. eexists. split; reflexivity.
Qed.

(** C8. Once the directions call has returned routes, the run never stops
    with "Could not determine a final route.": the list is not empty, the
    selection (fallback or not) returns one of the enriched routes, each of
    which is a fetched route with its scenic spots attached, and the chosen
    route of a completed plan is such a route. *)
Theorem route_always_determined (w : Services) (start end_ : string)
    (fetched : list Route) :
  get_route_options w start end_ = Some fetched ->
  fetched ≠ []
  /\ (forall enriched chosen_route_id,
        comprehension (attach_scenic_spots w) fetched = Ok enriched ->
        exists r r0,
          choose_route enriched chosen_route_id = Ok (Some r)
          /\ r ∈ enriched /\ r0 ∈ fetched /\ attach_scenic_spots w r0 = Ok r)
  /\ plan w start end_ ≠ Raise (ScriptStopped "Could not determine a final route.")
  /\ (forall message, plan w start end_ ≠ Raise (ScriptStopped message))
  /\ (forall data, plan w start end_ = Ok data ->
        exists r0, r0 ∈ fetched
                   /\ attach_scenic_spots w r0 = Ok (chosen_route data)).
Proof.
  intros Hfetch.
  destruct (get_route_options_labelled _ _ _ _ Hfetch) as [Hne _].
  assert (Hstop : forall message, plan w start end_ ≠ Raise (ScriptStopped message)).
  { intros message Hplan.
    destruct (comprehension (attach_scenic_spots w) fetched) as [enriched|e] eqn:Hatt.
    - destruct (plan_after_fetch _ _ _ _ _ Hfetch Hatt)
        as (r & _ & _ & [(e & He & Hcrash)|(data & Hdata & _)]); [|congruence].
      rewrite Hplan in He. injection He as <-. exact Hcrash.
    - unfold plan in Hplan. rewrite Hfetch in Hplan.
      destruct fetched as [|r0 others]; [done|]. rewrite Hatt in Hplan.
      cbn in Hplan. injection Hplan as ->.
      exact (comprehension_crash _ _ _ (attach_scenic_spots_crash w) Hatt). }
  split; [exact Hne|]. split; [|split; [apply Hstop|split; [exact Hstop|]]].
  - intros enriched cid Hatt.
    destruct (attach_all_labelled _ _ _ Hatt) as (Hlen & _ & Horigin).
    assert (Hne' : enriched ≠ []).
    { intros ->. destruct fetched; [done | discriminate]. }
    destruct (choose_route_some enriched cid Hne') as (r & Hr & Hin).
    destruct (Horigin r Hin) as (r0 & Hr0 & Hatt0).
    by exists r, r0.
  - intros data Hplan.
    destruct (comprehension (attach_scenic_spots w) fetched) as [enriched|e] eqn:Hatt.
    + destruct (plan_after_fetch _ _ _ _ _ Hfetch Hatt)
        as (r & _ & Hin & [(e & He & _)|(data' & Hdata & Hchosen)]); [congruence|].
      destruct (attach_all_labelled _ _ _ Hatt) as (_ & _ & Horigin).
      destruct (Horigin r Hin) as (r0 & Hr0 & Hatt0).
      exists r0. split; [exact Hr0|]. congruence.
    + unfold plan in Hplan. rewrite Hfetch in Hplan.
      destruct fetched as [|r0 others]; [done|]. rewrite Hatt in Hplan.
      discriminate.
Qed.

Lemma route_always_determined_witness :
  plan no_imagery "Pune" "Goa"
  ≠ Raise (ScriptStopped "Could not determine a final route.").
Proof.
  destruct (route_always_determined no_imagery "Pune" "Goa"
              [ {| route_id := "Route 1"; summary := "NH 48";
                   distance_text := "150 km"; duration_text := "3 hours";
                   polyline := "_p~iF~ps|U"; scenic_spots := [] |} ])
    as (_ & _ & H & _); [reflexivity | exact H].
Defined.

(** *** Route-choice parser *)

Lemma code_points_ascii (a : ascii) (s : string) :
  (N_of_ascii a <? 128)%N = true ->
  code_points (String a s) = N_of_ascii a :: code_points s.
Proof. intros H. cbn [code_points]. by rewrite H. Qed.

Lemma code_points_numeral (d : uint) :
  code_points (NilEmpty.string_of_uint d)
  = (fun v => (48 + v)%N) <$> uint_values d.
Proof.
  induction d; cbn [NilEmpty.string_of_uint uint_values fmap list_fmap];
    [reflexivity | rewrite code_points_ascii by reflexivity; by rewrite IHd ..].
Qed.

Lemma uint_values_digits (d : uint) : Forall (fun v => (v < 10)%N) (uint_values d).
Proof. induction d; cbn [uint_values]; constructor; (lia || done). Qed.

Lemma uint_values_length (d : uint) :
  length (uint_values d) = String.length (NilEmpty.string_of_uint d).
Proof. induction d; cbn; [reflexivity | by rewrite IHd ..]. Qed.

Lemma isdigit_ascii_digit (w : Services) (v : N) :
  (v < 10)%N -> isdigit w (48 + v) = true /\ decimal_value w (48 + v) = Some v.
Proof.
  intros Hv. unfold isdigit, decimal_value.
  assert (H128 : (48 + v <? 128)%N = true) by (apply N.ltb_lt; lia).
  assert (H48 : (48 <=? 48 + v)%N = true) by (apply N.leb_le; lia).
  assert (H57 : (48 + v <=? 57)%N = true) by (apply N.leb_le; lia).
  rewrite H128, H48, H57. split; [reflexivity|]. cbn [andb]. f_equal. lia.
Qed.

Lemma ascii_digits_kept (w : Services) (values : list N) :
  Forall (fun v => (v < 10)%N) values ->
  List.filter (isdigit w) ((fun v => (48 + v)%N) <$> values)
  = (fun v => (48 + v)%N) <$> values
  /\ mapM (decimal_value w) ((fun v => (48 + v)%N) <$> values) = Some values.
Proof.
  induction 1 as [|v values Hv _ [IHf IHm]]; [by split|].
  destruct (isdigit_ascii_digit w v Hv) as [Hdigit Hvalue].
  cbn [fmap list_fmap List.filter]. rewrite Hdigit, IHf. split; [reflexivity|].
  cbn. rewrite Hvalue. cbn. change (mapM (decimal_value w) ?l) with
    (mapM (decimal_value w) l) in IHm.
  by rewrite IHm.
Qed.

Lemma uint_values_number_acc (d : uint) (acc : positive) :
  foldl (fun n v => (10 * n + v)%N) (N.pos acc) (uint_values d)
  = N.pos (Pos.of_uint_acc d acc).
Proof.
  revert acc. induction d; intros acc; cbn [uint_values foldl Pos.of_uint_acc];
    [reflexivity | rewrite <- IHd; f_equal; lia ..].
Qed.

Lemma uint_values_number (d : uint) :
  foldl (fun n v => (10 * n + v)%N) 0%N (uint_values d) = N.of_uint d.
Proof.
  induction d; cbn [uint_values foldl];
    [reflexivity | exact IHd | apply uint_values_number_acc ..].
Qed.

(** Parsing the decimal numeral of a number gives the number back, within
    the limit on the number of digits. *)
Lemma int_of_digits_str_N (w : Services) (n : N) :
  String.length (str_N n) <= int_max_str_digits ->
  int_of_digits w (List.filter (isdigit w) (code_points (str_N n))) = Ok n.
Proof.
  unfold str_N. intros Hlen. rewrite code_points_numeral.
  destruct (ascii_digits_kept w _ (uint_values_digits (N.to_uint n)))
    as [Hkept Hvalues].
  rewrite Hkept. rewrite <- uint_values_length in Hlen.
  pose proof (uint_values_number (N.to_uint n)) as Hnumber.
  rewrite DecimalN.Unsigned.of_to in Hnumber.
  destruct (uint_values (N.to_uint n)) as [|v values] eqn:Hv.
  - cbn in Hnumber. subst n. discriminate Hv.
  - unfold int_of_digits. cbn [fmap list_fmap] in *.
    rewrite bool_decide_eq_false_2 by (cbn [length]; rewrite length_fmap;
                                       cbn [length] in Hlen; lia).
    by rewrite Hvalues, Hnumber.
Qed.

Lemma find_labelled (l : list Route) (k i : nat) :
  (forall j r, l !! j = Some r -> route_id r = "Route " +:+ str_nat (k + j + 1)) ->
  find (fun r => bool_decide (route_id r = "Route " +:+ str_nat (k + i + 1))) l
  = l !! i.
Proof.
  revert k i. induction l as [|r l IH]; intros k i Hlab; [reflexivity|].
  cbn [find]. pose proof (Hlab 0 r eq_refl) as Hr.
  destruct i as [|i].
  - rewrite bool_decide_eq_true_2 by exact Hr. reflexivity.
  - rewrite bool_decide_eq_false_2.
    + cbn [lookup list_lookup]. replace (k + S i + 1) with (S k + i + 1) by lia.
      apply IH. intros j r' Hj. rewrite (Hlab (S j) r' Hj). do 3 f_equal. lia.
    + rewrite Hr. intros H%route_label_inj. lia.
Qed.

Lemma choose_route_label (route_options : list Route) (n : N) :
  labelled route_options ->
  choose_route route_options (Some ("Route " +:+ str_N n))
  = if bool_decide (1 <= N.to_nat n <= length route_options)
    then Ok (route_options !! (N.to_nat n - 1))
    else most_scenic route_options.
Proof.
  intros Hlab. case_bool_decide as Hrange.
  - assert (Hn : n = N.of_nat (0 + (N.to_nat n - 1) + 1)) by lia.
    destruct (lookup_lt_is_Some_2 route_options (N.to_nat n - 1) ltac:(lia))
      as [r Hr].
    assert (Hid : route_id r = "Route " +:+ str_N n).
    { rewrite (Hlab _ _ Hr). unfold str_nat. do 2 f_equal. lia. }
    destruct (choose_route_known route_options ("Route " +:+ str_N n))
      as [-> _]; [discriminate | |].
    + apply list_elem_of_fmap. exists r.
      split; [by rewrite Hid | by eapply list_elem_of_lookup_2].
    + pose proof (find_labelled route_options 0 (N.to_nat n - 1)) as Hfind.
      unfold str_nat in Hfind. rewrite <- Hn in Hfind. rewrite Hfind; [done|].
      intros j r' Hj. by apply Hlab.
  - apply choose_route_fallback. right. eexists. split; [reflexivity|].
    intros (r & Hid & (i & Hi)%list_elem_of_lookup_1)%list_elem_of_fmap.
    rewrite (Hlab _ _ Hi) in Hid. apply route_label_inj in Hid.
    apply lookup_lt_Some in Hi. lia.
Qed.

Lemma int_of_digits_cases (w : Services) (digits : list N) :
  ((digits = [] \/ int_max_str_digits < length digits
    \/ exists c, c ∈ digits /\ decimal_value w c = None) ->
   int_of_digits w digits = Raise ValueError)
  /\ (forall values,
        digits ≠ [] -> length digits <= int_max_str_digits ->
        Forall2 (fun c v => decimal_value w c = Some v) digits values ->
        int_of_digits w digits
        = Ok (foldl (fun n v => (10 * n + v)%N) 0%N values)).
Proof.
  unfold int_of_digits. split.
  - intros [->|[Hlong|(c & Hc & Hnone)]]; [reflexivity | |].
    + destruct digits as [|c0 digits]; [reflexivity|].
      by rewrite bool_decide_eq_true_2.
    + destruct digits as [|c0 digits]; [reflexivity|].
      case_bool_decide; [reflexivity|].
      rewrite (mapM_None_2 (decimal_value w) (c0 :: digits)); [reflexivity|].
      apply Exists_exists. by exists c.
  - intros values Hne Hlen Hvalues.
    destruct digits as [|c0 digits]; [done|].
    rewrite bool_decide_eq_false_2 by lia.
    by rewrite (mapM_Some_2 _ _ _ Hvalues).
Qed.

(** C10. The route-choice parser keeps every character of the response of
    which [str.isdigit] holds and reads them together as one number in base
    ten, answering "Route n" for that number n.  A response with digits in
    several places, such as "2 of 3", yields "Route 23"; with routes
    labelled "Route 1" ... "Route N" a number outside 1..N matches no route
    and the fallback applies, while a number within 1..N, in particular a
    single valid digit, selects that route.  A response without digits, a
    call that raises, and a conversion that [int] refuses (more than 4300
    digits, or a digit without a decimal value) yield [None], and the
    fallback applies. *)
Theorem llm_choice_digits (w : Services) (route_options : list Route) :
  labelled route_options ->
  match generate_content w (choice_prompt route_options) with
  | None =>
      get_llm_choice w route_options = None
      /\ choose_route route_options (get_llm_choice w route_options)
         = most_scenic route_options
  | Some response_text =>
      let digits := List.filter (isdigit w) (code_points response_text) in
      ((digits = [] \/ int_max_str_digits < length digits
        \/ exists c, c ∈ digits /\ decimal_value w c = None) ->
         get_llm_choice w route_options = None
         /\ choose_route route_options (get_llm_choice w route_options)
            = most_scenic route_options)
      /\ (forall values,
            digits ≠ [] -> length digits <= int_max_str_digits ->
            Forall2 (fun c v => decimal_value w c = Some v) digits values ->
            let n := foldl (fun n v => (10 * n + v)%N) 0%N values in
            get_llm_choice w route_options = Some ("Route " +:+ str_N n)
            /\ (1 <= N.to_nat n <= length route_options ->
                  choose_route route_options (get_llm_choice w route_options)
                  = Ok (route_options !! (N.to_nat n - 1)))
            /\ (~ 1 <= N.to_nat n <= length route_options ->
                  choose_route route_options (get_llm_choice w route_options)
                  = most_scenic route_options))
  end
  /\ List.filter (isdigit (says None)) (code_points "2 of 3") = [50; 51]%N
  /\ get_llm_choice (says (Some "2 of 3")) three_routes = Some "Route 23"
  /\ choose_route three_routes (Some "Route 23")
     = Ok (Some (route_with "Route 2" 5))
  /\ get_llm_choice (says (Some "3")) three_routes = Some "Route 3"
  /\ choose_route three_routes (Some "Route 3")
     = Ok (Some (route_with "Route 3" 1))
  /\ get_llm_choice (says (Some "Route 1 is the most scenic.")) three_routes
     = Some "Route 1"
  /\ get_llm_choice (says (Some "the second one")) three_routes = None
  /\ get_llm_choice (says (Some "007")) three_routes = Some "Route 7"
  /\ get_llm_choice (says (Some long_answer)) three_routes = None
  /\ get_llm_choice (says_in_scripts (Some "२")) three_routes = Some "Route 2"
  /\ get_llm_choice (says_in_scripts (Some "２")) three_routes = Some "Route 2"
  /\ get_llm_choice (says_in_scripts (Some "2²")) three_routes = None.
Proof.
  intros Hlab. split; [|repeat split; by vm_compute].
  unfold get_llm_choice.
  destruct (generate_content w (choice_prompt route_options)) as [text|];
    [|by split].
  cbn zeta.
  destruct (int_of_digits_cases w (List.filter (isdigit w) (code_points text)))
    as [Hraise Hok].
  split.
  - intros Hbad. by rewrite (Hraise Hbad).
  - intros values Hne Hlen Hvalues. rewrite (Hok values Hne Hlen Hvalues).
    split; [reflexivity|]. rewrite choose_route_label by exact Hlab.
    split; intros Hrange.
    + by rewrite bool_decide_eq_true_2.
    + by rewrite bool_decide_eq_false_2.
Qed.

Lemma three_routes_labelled : labelled three_routes.
Proof.
  intros [|[|[|i]]] r; cbn; intros [= <-]; reflexivity.
Defined.

Lemma llm_choice_digits_witness :
  get_llm_choice (says (Some "2 of 3")) three_routes = Some "Route 23"
  /\ get_llm_choice (says (Some "3")) three_routes = Some "Route 3"
  /\ get_llm_choice (says_in_scripts (Some "2²")) three_routes = None.
Proof.
  destruct (llm_choice_digits (says (Some "3")) three_routes three_routes_labelled)
    as (_ & _ & H23 & _ & H3 & _ & _ & _ & _ & _ & _ & _ & Hsuper).
  split; [exact H23 | split; [exact H3 | exact Hsuper]].
Defined.

(** *** Report composer *)

Lemma present_eq (w : Services) (timestamp : string) (archive : dict string)
      (data : ReportData) :
  present w timestamp archive data
  = (report_html ← generate_report_html w data;
     Ok (dict_set archive (archive_path timestamp) report_html, report_html)).
Proof. reflexivity. Qed.

Lemma generate_report_html_services (w w' : Services) (data : ReportData) :
  GOOGLE_MAPS_API_KEY w = GOOGLE_MAPS_API_KEY w' ->
  str_float w = str_float w' ->
  generate_report_html w data = generate_report_html w' data.
Proof.
  intros Hkey Hfloat.
  unfold generate_report_html, place_photo_url, str_rating.
  by rewrite Hkey, Hfloat.
Qed.

Lemma generate_report_html_seek (w : Services) (pos : nat) (data : ReportData) :
  generate_report_html w (seek pos data) = generate_report_html w data.
Proof.
  unfold generate_report_html, seek. cbn.
  by destruct (drive_gif data) as [gif|].
Qed.

(** C1, at a failing input.  A run on which directions finds a route and no
    street imagery exists reaches the composition stage with both preview
    outputs null; composing the report then raises [AttributeError] (the
    null blob has no [getvalue]), nothing is archived, and the run ends with
    that exception.  The same holds for any report data whose blob is null. *)
Theorem null_preview_aborts_run :
  create_drive_preview_assets no_imagery "_p~iF~ps|U" = Ok (None, None)
  /\ (exists data,
        plan no_imagery "Pune" "Goa" = Ok data
        /\ drive_gif data = None /\ grid_urls data = None
        /\ generate_report_html no_imagery data = Raise AttributeError)
  /\ (forall timestamp archive,
        planning_run no_imagery "Pune" "Goa" timestamp archive
        = Raise AttributeError)
  /\ (forall w timestamp archive start end_ route narrative url grid spots stops,
        present w timestamp archive
          {| start_destination := start; end_destination := end_;
             chosen_route := route; ai_narrative := narrative; map_url := url;
             grid_urls := grid; report_scenic_spots := spots;
             pit_stops := stops; drive_gif := None |}
        = Raise AttributeError).
Proof.
  split; [by vm_compute|]. split; [|split].
  - eexists. split; [by vm_compute|]. repeat split; by vm_compute.
  - intros timestamp archive. unfold planning_run.
    replace (plan no_imagery "Pune" "Goa") with
      (Ok {| start_destination := "Pune"; end_destination := "Goa";
             chosen_route := {| route_id := "Route 1"; summary := "NH 48";
                                distance_text := "150 km";
                                duration_text := "3 hours";
                                polyline := "_p~iF~ps|U"; scenic_spots := [] |};
             ai_narrative := "AI narrative could not be generated.";
             map_url := static_map_url no_imagery
                          {| route_id := "Route 1"; summary := "NH 48";
                             distance_text := "150 km";
                             duration_text := "3 hours";
                             polyline := "_p~iF~ps|U"; scenic_spots := [] |}
                          "Pune" "Goa";
             grid_urls := None; report_scenic_spots := []; pit_stops := [];
             drive_gif := None |})
      by (by vm_compute).
    reflexivity.
  - reflexivity.
Qed.

(** C9. Composing the report is a function of the report data, the API key
    and the formatting of numbers alone: two compositions of the same data,
    at different times, into different archives and against different
    remote services, give the same document (or raise the same exception),
    and that document is what is archived and offered for download.  The
    stream position of the blob does not matter either. *)
Theorem report_composition_deterministic (w w' : Services) (data : ReportData)
    (timestamp timestamp' : string) (archive archive' : dict string) :
  GOOGLE_MAPS_API_KEY w = GOOGLE_MAPS_API_KEY w' ->
  str_float w = str_float w' ->
  exists outcome : result string,
    generate_report_html w data = outcome
    /\ generate_report_html w' data = outcome
    /\ present w timestamp archive data
       = (report_html ← outcome;
          Ok (dict_set archive (archive_path timestamp) report_html, report_html))
    /\ present w' timestamp' archive' data
       = (report_html ← outcome;
          Ok (dict_set archive' (archive_path timestamp') report_html,
              report_html))
    /\ (forall report_html, outcome = Ok report_html ->
          dict_get (dict_set archive (archive_path timestamp) report_html)
                   (archive_path timestamp) = Some report_html
          /\ dict_get (dict_set archive' (archive_path timestamp') report_html)
                      (archive_path timestamp') = Some report_html)
    /\ (forall pos, generate_report_html w (seek pos data) = outcome).
Proof.
  intros Hkey Hfloat. exists (generate_report_html w data).
  split; [reflexivity|].
  split; [symmetry; by apply generate_report_html_services|].
  split; [apply present_eq|]. split.
  - rewrite present_eq. by rewrite (generate_report_html_services w w').
  - split.
    + intros html _. rewrite !dict_get_set. by rewrite !decide_True.
    + intros pos. apply generate_report_html_seek.
Qed.

Lemma report_composition_deterministic_witness :
  exists outcome : result string,
    generate_report_html cafes_nearby sample_report = outcome
    /\ generate_report_html no_imagery sample_report = outcome
    /\ present cafes_nearby "20250101_120000" [] sample_report
       = (report_html ← outcome;
          Ok ([(archive_path "20250101_120000", report_html)], report_html)).
Proof.
  destruct (report_composition_deterministic cafes_nearby no_imagery
              sample_report "20250101_120000" "20251231_235959"
              [] [("archive/old.html", "old")])
    as (outcome & H1 & H2 & H3 & _); [reflexivity | reflexivity |].
  exists outcome. split; [exact H1|]. split; [exact H2 | exact H3].
Defined.

(** ** Further properties of the code *)

(** *** Directions *)

Lemma comprehension_raises_at {A B : Type} (f : A -> result B) (l : list A)
      (x : A) (e : exn) :
  x ∈ l -> f x = Raise e -> exists e', comprehension f l = Raise e'.
Proof.
  induction l as [|y l IH]; intros Hx Hfx; [by apply elem_of_nil in Hx|].
  cbn [comprehension]. destruct (f y) as [b|e0] eqn:Hfy; cbn; [|by exists e0].
  apply elem_of_cons in Hx as [->|Hx]; [congruence|].
  destruct (IH Hx Hfx) as [e' ->]. by exists e'.
Qed.

Lemma enumerate_elem {A : Type} (l : list A) (x : A) :
  x ∈ l -> exists i, (i, x) ∈ enumerate l.
Proof.
  intros (i & Hi)%list_elem_of_lookup_1. exists i.
  apply list_elem_of_lookup. exists i. unfold enumerate.
  apply lookup_zip_with_Some. exists i, x. split; [reflexivity|].
  split; [|exact Hi]. apply lookup_seq. split; [reflexivity|].
  by eapply lookup_lt_Some.
Qed.

Lemma labelled_NoDup (route_options : list Route) :
  labelled route_options -> NoDup (route_id <$> route_options).
Proof.
  intros Hlab. apply NoDup_alt. intros i j cid Hi Hj.
  apply list_lookup_fmap_Some in Hi as (ri & -> & Hri).
  apply list_lookup_fmap_Some in Hj as (rj & Hid & Hrj).
  rewrite (Hlab _ _ Hri), (Hlab _ _ Hrj) in Hid.
  apply route_label_inj in Hid. lia.
Qed.

(** X1. The directions client answers [None] exactly when the request
    raised, the provider listed no route, or some listed route has no leg;
    in every other case it answers a list. *)
Theorem get_route_options_None_iff (w : Services) (start end_ : string) :
  get_route_options w start end_ = None <->
  directions w start end_ = None
  \/ directions w start end_ = Some []
  \/ exists routes raw, directions w start end_ = Some routes
                        /\ raw ∈ routes /\ legs raw = [].
Proof.
  unfold get_route_options.
  destruct (directions w start end_) as [[|raw0 routes]|] eqn:Hdir.
  - split; [by right; left | done].
  - set (all := raw0 :: routes) in *.
    destruct (comprehension route_of (enumerate all)) as [l|e] eqn:Hl.
    + split; [discriminate|]. intros [?|[?|(routes' & raw & Heq & Hin & Hlegs)]];
        [discriminate | discriminate |].
      injection Heq as <-. destruct (enumerate_elem _ _ Hin) as [i Hi].
      destruct (comprehension_raises_at route_of (enumerate all) (i, raw) IndexError Hi)
        as [e' He'].
      * unfold route_of, subscript. cbn. by rewrite Hlegs.
      * congruence.
    + split; [|done]. intros _. right; right.
      apply comprehension_raises in Hl as ([i raw] & Hin & Hraise).
      exists all, raw. split; [reflexivity|].
      apply list_elem_of_lookup_1 in Hin as (j & Hj).
      apply enumerate_lookup in Hj as [_ Hj]. cbn in Hj.
      split; [by eapply list_elem_of_lookup_2|].
      unfold route_of, subscript in Hraise. cbn in Hraise.
      destruct (legs raw) as [|leg ?]; [reflexivity | discriminate].
  - split; [by left | done].
Qed.

Lemma get_route_options_inv (w : Services) (start end_ : string)
    (fetched : list Route) :
  get_route_options w start end_ = Some fetched ->
  exists routes,
    directions w start end_ = Some routes
    /\ length fetched = length routes
    /\ fetched ≠ []
    /\ NoDup (route_id <$> fetched)
    /\ forall i r, fetched !! i = Some r ->
         exists raw leg,
           routes !! i = Some raw /\ head (legs raw) = Some leg
           /\ route_id r = "Route " +:+ str_nat (i + 1)
           /\ summary r = default EmptyString (raw_summary raw)
           /\ distance_text r = leg_distance_text leg
           /\ duration_text r = leg_duration_text leg
           /\ polyline r = overview_polyline raw
           /\ scenic_spots r = [].
Proof.
  intros Hfetch.
  destruct (get_route_options_labelled _ _ _ _ Hfetch) as [Hne Hlab].
  unfold get_route_options in Hfetch.
  destruct (directions w start end_) as [routes|]; [|discriminate].
  exists routes. split; [reflexivity|].
  destruct routes as [|raw0 routes]; [discriminate|].
  set (all := raw0 :: routes) in *.
  destruct (comprehension route_of (enumerate all)) as [l|] eqn:Hl; [|discriminate].
  injection Hfetch as ->. apply comprehension_Forall2 in Hl.
  split.
  { apply Forall2_length in Hl. unfold enumerate in Hl.
    rewrite length_zip, length_seq in Hl. lia. }
  split; [exact Hne|]. split; [by apply labelled_NoDup|].
  intros i r Hr.
  destruct (Forall2_lookup_r _ _ _ _ _ Hl Hr) as ([j raw] & Hix & Hroute).
  apply enumerate_lookup in Hix as [Hj Hraw]. cbn in Hj, Hraw. subst j.
  unfold route_of, subscript in Hroute. cbn in Hroute.
  destruct (legs raw) as [|leg rest] eqn:Hlegs; cbn in Hroute; [discriminate|].
  injection Hroute as <-. exists raw, leg. by rewrite Hlegs.
Qed.


(** X2. A list of routes answered by the directions client has one route
    per provider route, in the provider's order: route [i] carries the
    summary (or the empty string), the polyline and the texts of the first
    leg of provider route [i], the label "Route i+1" and no scenic spot yet.
    The labels are pairwise distinct and the list is not empty. *)
Theorem get_route_options_fields (w : Services) (start end_ : string)
    (fetched : list Route) :
  get_route_options w start end_ = Some fetched ->
  exists routes,
    directions w start end_ = Some routes
    /\ length fetched = length routes
    /\ fetched ≠ []
    /\ NoDup (route_id <$> fetched)
    /\ forall i r, fetched !! i = Some r ->
         exists raw leg,
           routes !! i = Some raw /\ head (legs raw) = Some leg
           /\ route_id r = "Route " +:+ str_nat (i + 1)
           /\ summary r = default EmptyString (raw_summary raw)
           /\ distance_text r = leg_distance_text leg
           /\ duration_text r = leg_duration_text leg
           /\ polyline r = overview_polyline raw
           /\ scenic_spots r = [].
Proof. apply get_route_options_inv. Qed.

Lemma get_route_options_fields_witness :
  exists routes,
    directions no_imagery "Pune" "Goa" = Some routes
    /\ length [route_with "Route 1" 0] = length routes.
Proof.
  destruct (get_route_options_fields no_imagery "Pune" "Goa"
              [route_with "Route 1" 0])
    as (routes & Hdir & Hlen & _); [reflexivity|].
  exists routes. split; [exact Hdir | exact Hlen].
Defined.

(** *** Scenic scorer and pit-stop ranker: what makes them raise *)

Lemma get_pit_stops_some (w : Services) (s : string) (pt : point)
      (rest : list point) :
  polyline_decode w s = Some (pt :: rest) ->
  exists stops, get_pit_stops w s = Ok stops /\ length stops <= 5.
Proof.
  intros Hdec. set (path := pt :: rest) in *.
  assert (Hmid : length path / 2 < length path).
  { apply Nat.div_lt; [cbn; lia | lia]. }
  destruct (lookup_lt_is_Some_2 path _ Hmid) as [midpoint Hmidpoint].
  rewrite (get_pit_stops_eq w s path midpoint Hdec Hmidpoint).
  eexists. split; [reflexivity|].
  destruct (nearby_restaurant w midpoint); [|cbn; lia].
  unfold rank_pit_stops. rewrite length_fmap, length_take. lia.
Qed.

(** X3. The scenic scorer and the pit-stop ranker raise exactly when the
    polyline does not decode ([DecodeError]) or decodes to no point
    ([IndexError], from the sampling outside the [try] blocks).  On a path
    with at least one point both return, whatever the remote services
    answer, and the ranker returns at most five stops. *)
Theorem enrichment_raises_only_on_bad_polyline (w : Services) (s : string) :
  match polyline_decode w s with
  | None =>
      get_scenic_spots w s = Raise DecodeError
      /\ get_pit_stops w s = Raise DecodeError
  | Some [] =>
      get_scenic_spots w s = Raise IndexError
      /\ get_pit_stops w s = Raise IndexError
  | Some (pt :: rest) =>
      (exists spots, get_scenic_spots w s = Ok spots)
      /\ (exists stops, get_pit_stops w s = Ok stops /\ length stops <= 5)
  end.
Proof.
  destruct (polyline_decode w s) as [[|pt rest]|] eqn:Hdec.
  - unfold get_scenic_spots, get_pit_stops, decode. by rewrite Hdec.
  - split; [|by apply (get_pit_stops_some w s pt rest)].
    destruct (scenic_sample_points_ok (pt :: rest) ltac:(done)) as (pts & Hpts & _).
    rewrite (get_scenic_spots_eq w s _ pts Hdec Hpts). by eexists.
  - unfold get_scenic_spots, get_pit_stops, decode. by rewrite Hdec.
Qed.

Lemma processed_records_ext (w w' : Services) (pts : list point) :
  (forall pt keyword,
     default [] (nearby_keyword w pt keyword)
     = default [] (nearby_keyword w' pt keyword)) ->
  processed_records w pts = processed_records w' pts.
Proof.
  intros Hsame. unfold processed_records.
  apply list_bind_ext; [|reflexivity]. intros pt.
  apply list_bind_ext; [|reflexivity]. intros keyword. apply Hsame.
Qed.

(** X4. A nearby request that fails before the loop over its records
    starts (transport error, malformed JSON) counts as an empty answer and
    disturbs nothing else: two services that decode the polyline alike and
    whose scanned records agree once every such failed request is read as
    the empty list give the same scenic spots (or the same exception).  A
    scan cut short by an unreadable record is not a failed request here: it
    is the answer that ends before that record. *)
Theorem scenic_failed_request_is_empty_answer (w w' : Services) (s : string) :
  polyline_decode w s = polyline_decode w' s ->
  (forall pt keyword,
     default [] (nearby_keyword w pt keyword)
     = default [] (nearby_keyword w' pt keyword)) ->
  get_scenic_spots w s = get_scenic_spots w' s.
Proof.
  intros Hdec Hsame.
  destruct (polyline_decode w s) as [[|pt rest]|] eqn:Hw.
  - unfold get_scenic_spots, decode. by rewrite Hw, <- Hdec.
  - destruct (scenic_sample_points_ok (pt :: rest) ltac:(done)) as (pts & Hpts & _).
    rewrite (get_scenic_spots_eq w s _ pts Hw Hpts).
    rewrite (get_scenic_spots_eq w' s _ pts (eq_sym Hdec) Hpts).
    by rewrite !scan_point_records, (processed_records_ext w w' pts Hsame).
  - unfold get_scenic_spots, decode. by rewrite Hw, <- Hdec.
Qed.

Lemma scenic_failed_request_is_empty_answer_witness :
  nearby_keyword two_listings origin "beach" = None
  /\ nearby_keyword quiet_elsewhere origin "beach" = Some []
  /\ get_scenic_spots two_listings "_p~iF~ps|U"
     = get_scenic_spots quiet_elsewhere "_p~iF~ps|U".
Proof.
  split; [reflexivity|]. split; [reflexivity|].
  apply (scenic_failed_request_is_empty_answer two_listings quiet_elsewhere);
    [reflexivity|].
  intros pt keyword. simpl.
  destruct (bool_decide (keyword = "waterfall")); [reflexivity|].
  destruct (bool_decide (keyword = "temple")); reflexivity.
Defined.

(** *** Scenic scorer: order and rescans *)

Lemma first_seen_snoc (ids : list string) (k : string) :
  reverse (remove_dups (reverse (ids ++ [k])))
  = if decide (k ∈ reverse (remove_dups (reverse ids)))
    then reverse (remove_dups (reverse ids))
    else reverse (remove_dups (reverse ids)) ++ [k].
Proof.
  rewrite reverse_snoc. cbn [remove_dups].
  destruct (decide_rel elem_of k (reverse ids)) as [Hin|Hout].
  - rewrite decide_True; [reflexivity|].
    by apply elem_of_reverse, elem_of_remove_dups.
  - rewrite decide_False, reverse_cons; [reflexivity|].
    by rewrite elem_of_reverse, elem_of_remove_dups.
Qed.

Lemma remove_dups_length (l : list string) : length (remove_dups l) <= length l.
Proof.
  induction l as [|x l IH]; cbn; [lia|].
  destruct (decide_rel elem_of x l); cbn; lia.
Qed.

Lemma scan_results_snoc (d : dict ScenicSpot) (rs : list Place) (p : Place) :
  scan_results d (rs ++ [p]) = scan_place (scan_results d rs) p.
Proof. unfold scan_results. by rewrite foldl_app. Qed.

(** X5. The scorer lists the spots in the order in which their place
    identifiers are first accepted, one spot per identifier, so never more
    spots than accepted records. *)
Theorem scenic_spots_in_first_seen_order (results : list Place) :
  let accepted_ids := place_id <$> List.filter accepts results in
  dict_keys (scan_results [] results)
  = reverse (remove_dups (reverse accepted_ids))
  /\ length (dict_values (scan_results [] results)) <= length accepted_ids.
Proof.
  cbn zeta.
  assert (Hkeys : dict_keys (scan_results [] results)
                  = reverse (remove_dups (reverse
                      (place_id <$> List.filter accepts results)))).
  { induction results as [|p results IH] using rev_ind; [reflexivity|].
    rewrite scan_results_snoc, List.filter_app, fmap_app. cbn [List.filter].
    destruct (accepts p) eqn:Hacc.
    - destruct (scan_place_accept (scan_results [] results) p Hacc)
        as (spot & _ & ->).
      rewrite dict_keys_set, IH. cbn [fmap list_fmap].
      by rewrite first_seen_snoc.
    - rewrite scan_place_reject by exact Hacc. cbn [fmap list_fmap].
      by rewrite app_nil_r. }
  split; [exact Hkeys|].
  transitivity (length (dict_keys (scan_results [] results))).
  - unfold dict_values, dict_keys. by rewrite !length_fmap.
  - rewrite Hkeys, length_reverse.
    etransitivity; [apply remove_dups_length|].
    by rewrite length_reverse.
Qed.

Lemma dict_get_None {V : Type} (d : dict V) (k : string) :
  k ∉ dict_keys d -> dict_get d k = None.
Proof.
  unfold dict_keys. induction d as [|[k0 v0] d IH]; intros Hk; [reflexivity|].
  cbn in *. apply not_elem_of_cons in Hk as [Hne Hk].
  rewrite decide_False by congruence. by apply IH.
Qed.

Lemma dict_ext {V : Type} (d1 d2 : dict V) :
  NoDup (dict_keys d1) -> dict_keys d1 = dict_keys d2 ->
  (forall k, dict_get d1 k = dict_get d2 k) -> d1 = d2.
Proof.
  unfold dict_keys. revert d2.
  induction d1 as [|[k1 v1] d1 IH]; intros [|[k2 v2] d2] Hnd Hkeys Hget;
    try discriminate; [reflexivity|].
  cbn in Hkeys. injection Hkeys as <- Hkeys.
  apply NoDup_cons in Hnd as [Hfresh Hnd].
  pose proof (Hget k1) as Hv. cbn in Hv. rewrite !decide_True in Hv by done.
  injection Hv as <-. f_equal. apply IH; [exact Hnd | exact Hkeys|].
  intros k. destruct (decide (k1 = k)) as [<-|Hne].
  - rewrite !dict_get_None; [reflexivity | unfold dict_keys; by rewrite <- Hkeys | done].
  - specialize (Hget k). cbn in Hget. by rewrite !decide_False in Hget.
Qed.

Lemma scan_results_keys_fixed (rs : list Place) (d : dict ScenicSpot) :
  (forall p, p ∈ rs -> accepts p = true -> place_id p ∈ dict_keys d) ->
  dict_keys (scan_results d rs) = dict_keys d.
Proof.
  unfold scan_results. revert d.
  induction rs as [|p rs IH]; intros d Hin; [reflexivity|]. cbn [foldl].
  assert (Hsame : dict_keys (scan_place d p) = dict_keys d).
  { destruct (accepts p) eqn:Hacc.
    - destruct (scan_place_accept d p Hacc) as (spot & _ & ->).
      rewrite dict_keys_set, decide_True; [reflexivity|].
      apply Hin; [by left | exact Hacc].
    - by rewrite scan_place_reject. }
  rewrite IH; [exact Hsame|].
  intros q Hq Hacc. rewrite Hsame. apply Hin; [by right | exact Hacc].
Qed.

(** X6. Scanning the same records a second time right away changes
    nothing: the mapping after the records were scanned twice in a row is
    the mapping after they were scanned once, as when consecutive sample
    points of a short path coincide and bring back the same answers. *)
Theorem scenic_rescan_changes_nothing (d : dict ScenicSpot) (results : list Place) :
  NoDup (dict_keys d) ->
  scan_results d (results ++ results) = scan_results d results.
Proof.
  intros Hnd.
  assert (Happ : scan_results d (results ++ results)
                 = scan_results (scan_results d results) results)
    by (unfold scan_results; apply foldl_app).
  rewrite Happ. symmetry. apply dict_ext.
  - by apply scan_results_NoDup.
  - symmetry. apply scan_results_keys_fixed. intros p Hp Hacc.
    apply scan_results_keys. right. by exists p.
  - intros k. rewrite (scan_results_get results (scan_results d results)).
    rewrite (scan_results_get results d).
    by destruct (last (List.filter (accepted_as k) results)).
Qed.

Lemma scenic_rescan_changes_nothing_witness :
  scan_results [] ([falls_old; falls_new] ++ [falls_old; falls_new])
  = scan_results [] [falls_old; falls_new].
Proof.
  apply (scenic_rescan_changes_nothing [] [falls_old; falls_new]). constructor.
Defined.

(** *** Pit-stop ranker: the stops left out *)

(** X7. The ranker splits the candidates into the stops it returns and the
    ones it leaves out: together they are the candidates, nothing is left
    out when there are at most five, and no candidate left out has a higher
    sort rating than a returned one. *)
Theorem pit_stops_keep_the_best (results : list Place) :
  exists kept dropped,
    rank_pit_stops results = pit_stop_of <$> kept
    /\ kept ++ dropped ≡ₚ results
    /\ (length results <= 5 -> dropped = [])
    /\ forall a b, a ∈ kept -> b ∈ dropped ->
                   (sort_key b <= sort_key a)%Q.
Proof.
  exists (take 5 (sorted sort_key true results)),
         (drop 5 (sorted sort_key true results)).
  split; [reflexivity|]. split; [|split].
  - rewrite take_drop. apply sorted_reverse_perm.
  - intros Hlen. apply drop_ge.
    by rewrite (Permutation_length (sorted_reverse_perm sort_key results)).
  - intros a b Ha Hb.
    pose proof (sorted_reverse_desc sort_key results) as Hsorted.
    rewrite <- (take_drop 5 (sorted sort_key true results)) in Hsorted.
    apply StronglySorted_app in Hsorted as (Hcross & _). by apply Hcross.
Qed.

(** *** Preview builder: the shape of the result *)

Lemma hits_points_sublist (w : Services) (pts : list point) :
  (hits w pts).*1 `sublist_of` pts.
Proof.
  unfold hits. rewrite fmap_take.
  etransitivity; [apply sublist_take|].
  induction pts as [|pt pts IH]; [constructor|]. cbn [omap list_omap].
  destruct (fetched w pt); cbn; by constructor.
Qed.

Lemma grid_of_sublist (w : Services) (pts : list point) :
  grid_of w (hits w pts) `sublist_of` (street_view_image_url w <$> pts).
Proof.
  unfold grid_of.
  replace ((fun x : point * ImageResponse => street_view_image_url w x.1)
             <$> hits w pts)
    with (street_view_image_url w <$> (hits w pts).*1)
    by (by rewrite <- list_fmap_compose).
  apply fmap_sublist, hits_points_sublist.
Qed.

Lemma frames_need_hits (w : Services) (h : list (point * ImageResponse)) :
  frames_of w h ≠ [] -> 1 <= length (grid_of w h).
Proof.
  destruct h; [done|]. intros _. unfold grid_of. cbn. lia.
Qed.

Lemma create_drive_preview_assets_shape (w : Services) (s : string)
      (gif : option BytesIO) (grid : option (list string)) :
  create_drive_preview_assets w s = Ok (gif, grid) ->
  (gif = None /\ grid = None)
  \/ exists blob urls path pts,
       gif = Some blob /\ grid = Some urls /\ position blob = 0
       /\ polyline_decode w s = Some path
       /\ preview_sample_points path = Ok pts
       /\ 1 <= length urls <= 12
       /\ urls `sublist_of` (street_view_image_url w <$> pts).
Proof.
  intros Hcreate.
  destruct (polyline_decode w s) as [[|pt rest]|] eqn:Hdec;
    [unfold create_drive_preview_assets, decode in Hcreate;
     rewrite Hdec in Hcreate; discriminate | |
     unfold create_drive_preview_assets, decode in Hcreate;
     rewrite Hdec in Hcreate; discriminate].
  destruct (preview_sample_points_ok (pt :: rest) ltac:(done)) as (pts & Hpts & _).
  rewrite (create_drive_preview_assets_eq w s _ pts Hdec Hpts) in Hcreate.
  destruct (frames_of w (hits w pts)) as [|frame frames] eqn:Hframes.
  - left. by injection Hcreate as <- <-.
  - right. injection Hcreate as <- <-.
    eexists _, _, (pt :: rest), pts. split; [reflexivity|].
    split; [reflexivity|]. split; [reflexivity|]. split; [reflexivity|].
    split; [exact Hpts|]. split; [|apply grid_of_sublist].
    split.
    + apply frames_need_hits. by rewrite Hframes.
    + unfold grid_of, hits. rewrite length_fmap, length_take. lia.
Qed.

(** X8. Whenever the preview builder returns, its two outputs are both
    null or both present.  When present, the blob is rewound to position 0
    and the grid holds between 1 and 12 URLs, which are URLs of sample
    points of the route, in route order. *)
Theorem preview_outputs_go_together (w : Services) (s : string)
    (gif : option BytesIO) (grid : option (list string)) :
  create_drive_preview_assets w s = Ok (gif, grid) ->
  (gif = None /\ grid = None)
  \/ exists blob urls path pts,
       gif = Some blob /\ grid = Some urls /\ position blob = 0
       /\ polyline_decode w s = Some path
       /\ preview_sample_points path = Ok pts
       /\ 1 <= length urls <= 12
       /\ urls `sublist_of` (street_view_image_url w <$> pts).
Proof. apply create_drive_preview_assets_shape. Qed.

Lemma preview_outputs_go_together_witness :
  exists blob urls,
    create_drive_preview_assets patchy_imagery "_p~iF~ps|U"
    = Ok (Some blob, Some urls)
    /\ 1 <= length urls <= 12.
Proof.
  destruct (preview_outputs_go_together patchy_imagery "_p~iF~ps|U"
              (Some {| getvalue := [Byte.x47]; position := 0 |})
              (Some (grid_of patchy_imagery
                       (hits patchy_imagery (waypoint <$> seq 1 24)))))
    as [[Hnone _]|(blob & urls & _ & _ & Hgif & Hgrid & _ & _ & _ & Hlen & _)];
    [by vm_compute | discriminate |].
  exists blob, urls. injection Hgif as <-. injection Hgrid as <-.
  split; [by vm_compute | exact Hlen].
Defined.

(** *** Route choice: a plain numeral *)

(** X9. Printing and parsing agree: when the generative model answers
    with exactly the decimal numeral of a position [k+1] in the list of
    labelled routes (a numeral within the interpreter's limit of 4300
    digits), the parser returns the label of the route at that position and
    the orchestrator selects that route, whatever the scenic counts are. *)
Theorem numeral_answer_selects_route (w : Services) (route_options : list Route)
    (k : nat) (r : Route) :
  labelled route_options ->
  route_options !! k = Some r ->
  String.length (str_nat (k + 1)) <= int_max_str_digits ->
  generate_content w (choice_prompt route_options) = Some (str_nat (k + 1)) ->
  get_llm_choice w route_options = Some (route_id r)
  /\ choose_route route_options (get_llm_choice w route_options) = Ok (Some r).
Proof.
  intros Hlab Hr Hlimit Hanswer.
  assert (Hchoice : get_llm_choice w route_options = Some (route_id r)).
  { unfold get_llm_choice. rewrite Hanswer. unfold str_nat in *.
    rewrite (int_of_digits_str_N w _ Hlimit). by rewrite (Hlab _ _ Hr). }
  split; [exact Hchoice|]. rewrite Hchoice, (Hlab _ _ Hr). unfold str_nat.
  rewrite choose_route_label by exact Hlab.
  apply lookup_lt_Some in Hr as Hlt.
  rewrite bool_decide_eq_true_2 by lia.
  replace (N.to_nat (N.of_nat (k + 1)) - 1) with k by lia. by rewrite Hr.
Qed.

Lemma numeral_answer_selects_route_witness :
  get_llm_choice (says (Some "3")) three_routes = Some "Route 3"
  /\ choose_route three_routes (get_llm_choice (says (Some "3")) three_routes)
     = Ok (Some (route_with "Route 3" 1)).
Proof.
  apply (numeral_answer_selects_route (says (Some "3")) three_routes 2
           (route_with "Route 3" 1));
    [|reflexivity|vm_compute; lia|reflexivity].
  intros [|[|[|i]]] r; cbn; intros [= <-]; reflexivity.
Defined.

(** *** Narrative stream *)


Lemma str_app_assoc (s1 s2 s3 : string) :
  (s1 +:+ s2) +:+ s3 = s1 +:+ (s2 +:+ s3).
Proof.
  induction s1 as [|c s1 IH]; [reflexivity|].
  change (String c ((s1 +:+ s2) +:+ s3) = String c (s1 +:+ (s2 +:+ s3))).
  by f_equal.
Qed.




(** *** The planning block as a whole *)




(** The report data the planning block assembles. *)
Lemma plan_eq (w : Services) (start end_ : string)
      (fetched enriched : list Route) (chosen : Route) :
  get_route_options w start end_ = Some fetched ->
  comprehension (attach_scenic_spots w) fetched = Ok enriched ->
  choose_route enriched (get_llm_choice w enriched) = Ok (Some chosen) ->
  plan w start end_
  = (assets ← create_drive_preview_assets w (polyline chosen);
     stops ← get_pit_stops w (polyline chosen);
     narrative ←
       match get_llm_narrative_stream w chosen with
       | Some stream =>
           texts ← narrative_texts stream;
           Ok (String.concat EmptyString texts)
       | None => Ok "AI narrative could not be generated."
       end;
     Ok {| start_destination := start;
           end_destination := end_;
           chosen_route := chosen;
           ai_narrative := narrative;
           map_url := static_map_url w chosen start end_;
           grid_urls := assets.2;
           report_scenic_spots := scenic_spots chosen;
           pit_stops := stops;
           drive_gif := assets.1 |}).
Proof.
  intros Hfetch Hatt Hchoose.
  destruct (get_route_options_labelled _ _ _ _ Hfetch) as [Hne _].
  unfold plan. rewrite Hfetch. destruct fetched as [|r0 others]; [done|].
  rewrite Hatt. cbn [mbind result_bind]. rewrite Hchoose. reflexivity.
Qed.

Lemma narrative_Ok_inv (w : Services) (chosen : Route) (narrative : string) :
  match get_llm_narrative_stream w chosen with
  | Some stream =>
      texts ← narrative_texts stream; Ok (String.concat EmptyString texts)
  | None => Ok "AI narrative could not be generated."
  end = Ok narrative ->
  match get_llm_narrative_stream w chosen with
  | Some stream =>
      breaks stream = false
      /\ narrative
         = String.concat EmptyString (stream_text_generator (chunks stream))
  | None => narrative = "AI narrative could not be generated."
  end.
Proof.
  destruct (get_llm_narrative_stream w chosen) as [stream|];
    [|by intros [= <-]].
  unfold narrative_texts. destruct (breaks stream); [discriminate|].
  by intros [= <-].
Qed.

Lemma plan_Ok_inv (w : Services) (start end_ : string) (data : ReportData) :
  plan w start end_ = Ok data ->
  exists fetched enriched chosen assets stops narrative,
    get_route_options w start end_ = Some fetched
    /\ comprehension (attach_scenic_spots w) fetched = Ok enriched
    /\ choose_route enriched (get_llm_choice w enriched) = Ok (Some chosen)
    /\ chosen ∈ enriched
    /\ create_drive_preview_assets w (polyline chosen) = Ok assets
    /\ get_pit_stops w (polyline chosen) = Ok stops
    /\ match get_llm_narrative_stream w chosen with
       | Some stream =>
           breaks stream = false
           /\ narrative
              = String.concat EmptyString (stream_text_generator (chunks stream))
       | None => narrative = "AI narrative could not be generated."
       end
    /\ data = {| start_destination := start;
                 end_destination := end_;
                 chosen_route := chosen;
                 ai_narrative := narrative;
                 map_url := static_map_url w chosen start end_;
                 grid_urls := assets.2;
                 report_scenic_spots := scenic_spots chosen;
                 pit_stops := stops;
                 drive_gif := assets.1 |}.
Proof.
  intros Hplan.
  destruct (get_route_options w start end_) as [fetched|] eqn:Hfetch;
    [|unfold plan in Hplan; rewrite Hfetch in Hplan; discriminate].
  destruct (get_route_options_labelled _ _ _ _ Hfetch) as [Hne _].
  destruct (comprehension (attach_scenic_spots w) fetched) as [enriched|e] eqn:Hatt.
  2: { unfold plan in Hplan. rewrite Hfetch in Hplan.
       destruct fetched; [done|]. rewrite Hatt in Hplan. discriminate. }
  destruct (attach_all_labelled _ _ _ Hatt) as (Hlen & _ & _).
  assert (Hne' : enriched ≠ []).
  { intros ->. destruct fetched; [done | discriminate]. }
  destruct (choose_route_some enriched (get_llm_choice w enriched) Hne')
    as (chosen & Hchoose & Hin).
  rewrite (plan_eq _ _ _ _ _ _ Hfetch Hatt Hchoose) in Hplan.
  apply bind_Ok_inv in Hplan as (assets & Hassets & Hplan).
  apply bind_Ok_inv in Hplan as (stops & Hstops & Hplan).
  apply bind_Ok_inv in Hplan as (narrative & Hnarrative & Hplan).
  apply narrative_Ok_inv in Hnarrative.
  injection Hplan as <-.
  by exists fetched, enriched, chosen, assets, stops, narrative.
Qed.



(** X12. The planning block stops the script only for want of routes: it
    stops, with the message "No routes found.", exactly when the directions
    client answers [None]. *)
Theorem plan_stops_iff_no_routes (w : Services) (start end_ : string)
    (message : string) :
  plan w start end_ = Raise (ScriptStopped message) <->
  get_route_options w start end_ = None /\ message = "No routes found.".
Proof.
  split.
  - intros Hplan.
    destruct (get_route_options w start end_) as [fetched|] eqn:Hfetch.
    + exfalso.
      destruct (comprehension (attach_scenic_spots w) fetched)
        as [enriched|e] eqn:Hatt.
      * destruct (plan_after_fetch _ _ _ _ _ Hfetch Hatt)
          as (r & _ & _ & [(e & He & Hcrash)|(data & Hdata & _)]); [|congruence].
        rewrite Hplan in He. injection He as <-. exact Hcrash.
      * destruct (get_route_options_labelled _ _ _ _ Hfetch) as [Hne _].
        unfold plan in Hplan. rewrite Hfetch in Hplan.
        destruct fetched as [|r0 others]; [done|]. rewrite Hatt in Hplan.
        cbn in Hplan. injection Hplan as ->.
        exact (comprehension_crash _ _ _ (attach_scenic_spots_crash w) Hatt).
    + unfold plan in Hplan. rewrite Hfetch in Hplan. by injection Hplan as <-.
  - intros [Hnone ->]. unfold plan. by rewrite Hnone.
Qed.

(** X13. Report data assembled by the planning block is well formed: it
    repeats the two destinations, its scenic spots are those of the chosen
    route, its map URL is built from the chosen route, it has at most five
    pit stops, its preview outputs are both null or both present, a present
    grid has between 1 and 12 URLs, and when the narrative request raises
    the narrative is the fixed sentence that says so. *)
Theorem plan_report_data_well_formed (w : Services) (start end_ : string)
    (data : ReportData) :
  plan w start end_ = Ok data ->
  start_destination data = start /\ end_destination data = end_
  /\ report_scenic_spots data = scenic_spots (chosen_route data)
  /\ map_url data = static_map_url w (chosen_route data) start end_
  /\ length (pit_stops data) <= 5
  /\ (drive_gif data = None <-> grid_urls data = None)
  /\ (forall urls, grid_urls data = Some urls -> 1 <= length urls <= 12)
  /\ (generate_content_stream w (narrative_prompt (chosen_route data)) = None ->
        ai_narrative data = "AI narrative could not be generated.").
Proof.
  intros Hplan.
  destruct (plan_Ok_inv _ _ _ _ Hplan)
    as (fetched & enriched & chosen & [gif grid] & stops & narrative
        & _ & _ & _ & _ & Hassets & Hstops & Hnarrative & ->).
  cbn [start_destination end_destination report_scenic_spots chosen_route
       map_url pit_stops drive_gif grid_urls ai_narrative fst snd].
  split; [reflexivity|]. split; [reflexivity|]. split; [reflexivity|].
  split; [reflexivity|].
  apply create_drive_preview_assets_shape in Hassets.
  split; [|split; [|split]].
  - destruct (polyline_decode w (polyline chosen)) as [[|pt rest]|] eqn:Hdec;
      [unfold get_pit_stops, decode in Hstops; rewrite Hdec in Hstops;
       discriminate | |
       unfold get_pit_stops, decode in Hstops; rewrite Hdec in Hstops;
       discriminate].
    destruct (get_pit_stops_some w _ pt rest Hdec) as (stops' & Hstops' & Hlen).
    congruence.
  - destruct Hassets as [[-> ->]|(blob & urls & _ & _ & -> & -> & _)]; [done|].
    split; discriminate.
  - intros urls Hgrid.
    destruct Hassets as [[_ ->]|(blob & urls' & _ & _ & _ & -> & _ & _ & _ & Hlen & _)];
      [discriminate|]. by injection Hgrid as <-.
  - unfold get_llm_narrative_stream in Hnarrative. intros Hnone.
    by rewrite Hnone in Hnarrative.
Qed.

Lemma plan_report_data_well_formed_witness :
  exists data, plan no_imagery "Pune" "Goa" = Ok data
    /\ length (pit_stops data) <= 5
    /\ ai_narrative data = "AI narrative could not be generated.".
Proof.
  eexists. split; [by vm_compute|].
  match goal with
  | |- length (pit_stops ?d) <= 5 /\ _ =>
      destruct (plan_report_data_well_formed no_imagery "Pune" "Goa" d)
        as (_ & _ & _ & _ & Hstops & _ & _ & Hnarrative); [by vm_compute|]
  end.
  split; [exact Hstops | by apply Hnarrative].
Defined.

(** *** Archiving the report *)

Lemma str_length_app (s1 s2 : string) :
  String.length (s1 +:+ s2) = String.length s1 + String.length s2.
Proof.
  induction s1 as [|c s1 IH]; [reflexivity|].
  change (S (String.length (s1 +:+ s2)) = S (String.length s1 + String.length s2)).
  by rewrite IH.
Qed.

Lemma str_app_inv_head (s x y : string) : s +:+ x = s +:+ y -> x = y.
Proof.
  induction s as [|c s IH]; [done|]. intros H.
  change (String c (s +:+ x) = String c (s +:+ y)) in H.
  injection H as H. by apply IH.
Qed.

Lemma str_app_inv_tail (s1 s2 x : string) : s1 +:+ x = s2 +:+ x -> s1 = s2.
Proof.
  revert s2. induction s1 as [|c1 s1 IH]; intros [|c2 s2] H.
  - reflexivity.
  - apply (f_equal String.length) in H. rewrite !str_length_app in H.
    cbn in H. lia.
  - apply (f_equal String.length) in H. rewrite !str_length_app in H.
    cbn in H. lia.
  - change (String c1 (s1 +:+ x) = String c2 (s2 +:+ x)) in H.
    injection H as -> H. f_equal. by apply IH.
Qed.

Lemma archive_path_inj (t1 t2 : string) :
  archive_path t1 = archive_path t2 -> t1 = t2.
Proof.
  unfold archive_path. intros H.
  apply str_app_inv_head, str_app_inv_head in H.
  by apply str_app_inv_tail in H.
Qed.

Lemma dict_set_length {V : Type} (d : dict V) (k : string) (v : V) :
  length (dict_set d k v)
  = if decide (k ∈ dict_keys d) then length d else S (length d).
Proof.
  transitivity (length (dict_keys (dict_set d k v)));
    [unfold dict_keys; by rewrite length_fmap|].
  rewrite dict_keys_set. unfold dict_keys.
  case_decide; [by rewrite length_fmap|].
  rewrite length_app, length_fmap. cbn. lia.
Qed.

Lemma dict_set_twice {V : Type} (d : dict V) (k : string) (v v' : V) :
  dict_set (dict_set d k v) k v' = dict_set d k v'.
Proof.
  induction d as [|[k0 v0] d IH]; cbn.
  - by rewrite decide_True.
  - destruct (decide (k0 = k)) as [->|Hne]; cbn.
    + by rewrite decide_True.
    + rewrite decide_False by exact Hne. by rewrite IH.
Qed.

Lemma generate_report_html_Ok (w : Services) (data : ReportData)
      (blob : BytesIO) (urls : list string) :
  drive_gif data = Some blob -> grid_urls data = Some urls ->
  exists html, generate_report_html w data = Ok html.
Proof.
  intros Hgif Hgrid. unfold generate_report_html. rewrite Hgif, Hgrid.
  eexists. reflexivity.
Qed.

(** X14. Composing and archiving a report with both preview outputs
    present succeeds and writes exactly one file: the archive then holds
    the document under the name made of the timestamp, every other file is
    as before, and the archive has the same size or one file more.  With a
    null blob it raises [AttributeError], with a blob and a null grid
    [TypeError], and nothing is written. *)
Theorem present_writes_one_file (w : Services) (timestamp : string)
    (archive : dict string) (data : ReportData) :
  match drive_gif data, grid_urls data with
  | Some _, Some _ =>
      exists html,
        generate_report_html w data = Ok html
        /\ present w timestamp archive data
           = Ok (dict_set archive (archive_path timestamp) html, html)
        /\ dict_get (dict_set archive (archive_path timestamp) html)
                    (archive_path timestamp) = Some html
        /\ (forall other, other ≠ archive_path timestamp ->
              dict_get (dict_set archive (archive_path timestamp) html) other
              = dict_get archive other)
        /\ length archive
           <= length (dict_set archive (archive_path timestamp) html)
           <= S (length archive)
  | None, _ => present w timestamp archive data = Raise AttributeError
  | Some _, None => present w timestamp archive data = Raise TypeError
  end.
Proof.
  destruct (drive_gif data) as [blob|] eqn:Hgif;
    [|rewrite present_eq; unfold generate_report_html; by rewrite Hgif].
  destruct (grid_urls data) as [urls|] eqn:Hgrid;
    [|rewrite present_eq; unfold generate_report_html; by rewrite Hgif, Hgrid].
  destruct (generate_report_html_Ok w data blob urls Hgif Hgrid) as [html Hhtml].
  exists html. split; [exact Hhtml|]. split; [by rewrite present_eq, Hhtml|].
  split; [rewrite dict_get_set; by rewrite decide_True|]. split.
  - intros other Hother. rewrite dict_get_set. by rewrite decide_False.
  - rewrite dict_set_length. case_decide; lia.
Qed.

(** *** Reruns of the script *)

Lemma script_run_stored (w : Services) (data : ReportData) (button : bool)
      (start end_ : option string) (timestamp : string) (archive : dict string) :
  button && selected start && selected end_ = false ->
  script_run w (Some data) button start end_ timestamp archive
  = match present w timestamp archive data with
    | Ok written =>
        {| report_data := Some data; archive_after := written.1; raised := None |}
    | Raise e =>
        {| report_data := Some data; archive_after := archive; raised := Some e |}
    end.
Proof. intros Hquiet. unfold script_run. by rewrite Hquiet. Qed.

Lemma script_run_click (w : Services) (stored : option ReportData)
      (start end_ : string) (timestamp : string) (archive : dict string) :
  start ≠ EmptyString -> end_ ≠ EmptyString ->
  script_run w stored true (Some start) (Some end_) timestamp archive
  = match plan w start end_ with
    | Raise e =>
        {| report_data := None; archive_after := archive; raised := Some e |}
    | Ok data =>
        match present w timestamp archive data with
        | Ok written =>
            {| report_data := Some data; archive_after := written.1;
               raised := None |}
        | Raise e =>
            {| report_data := Some data; archive_after := archive;
               raised := Some e |}
        end
    end.
Proof.
  intros Hstart Hend. destruct start; [done|]. destruct end_; [done|].
  unfold script_run. cbn [selected andb]. unfold default. cbn [from_option id].
  by destruct (plan w _ _).
Qed.

(** X15. A stored report with both preview outputs is archived again on
    every rerun that is not a complete planning click: after two such
    reruns the archive holds the same document under the names of both
    timestamps, the report is still stored and nothing was raised.  Reruns
    within the same second share a name and leave one file; reruns in
    different seconds leave two. *)
Theorem rerun_archives_again (w : Services) (data : ReportData)
    (blob : BytesIO) (urls : list string) (button : bool)
    (start end_ : option string) (first second : string) (archive : dict string) :
  drive_gif data = Some blob -> grid_urls data = Some urls ->
  button && selected start && selected end_ = false ->
  let r1 := script_run w (Some data) button start end_ first archive in
  let r2 := script_run w (report_data r1) button start end_ second
                       (archive_after r1) in
  raised r1 = None /\ raised r2 = None /\ report_data r2 = Some data
  /\ (exists html,
        generate_report_html w data = Ok html
        /\ dict_get (archive_after r2) (archive_path first) = Some html
        /\ dict_get (archive_after r2) (archive_path second) = Some html)
  /\ (first = second -> archive_after r2 = archive_after r1)
  /\ (first ≠ second -> archive_path first ≠ archive_path second).
Proof.
  intros Hgif Hgrid Hquiet. cbn zeta.
  destruct (generate_report_html_Ok w data blob urls Hgif Hgrid) as [html Hhtml].
  rewrite (script_run_stored w data button start end_ first archive Hquiet).
  rewrite present_eq, Hhtml. cbn [mbind result_bind report_data archive_after raised fst].
  rewrite (script_run_stored w data button start end_ second _ Hquiet).
  rewrite present_eq, Hhtml. cbn [mbind result_bind report_data archive_after raised fst].
  split; [reflexivity|]. split; [reflexivity|]. split; [reflexivity|].
  split; [|split].
  - exists html. split; [reflexivity|]. rewrite !dict_get_set.
    split; [|by rewrite decide_True].
    destruct (decide (archive_path second = archive_path first)); [reflexivity|].
    by rewrite decide_True.
  - intros <-. apply dict_set_twice.
  - intros Hne Hpath. by apply Hne, archive_path_inj.
Qed.

Lemma rerun_archives_again_witness :
  exists html,
    generate_report_html cafes_nearby sample_report = Ok html
    /\ dict_get
         (archive_after
            (script_run cafes_nearby
               (report_data
                  (script_run cafes_nearby (Some sample_report) false None None
                              "20250101_120000" []))
               false None None "20250101_120001"
               (archive_after
                  (script_run cafes_nearby (Some sample_report) false None None
                              "20250101_120000" []))))
         (archive_path "20250101_120000") = Some html.
Proof.
  destruct (rerun_archives_again cafes_nearby sample_report
              {| getvalue := [Byte.x47; Byte.x49; Byte.x46]; position := 0 |}
              ["https://maps.googleapis.com/maps/api/streetview?size=400x300"]
              false None None "20250101_120000" "20250101_120001" [])
    as (_ & _ & _ & (html & Hhtml & Hfirst & _) & _);
    [reflexivity | reflexivity | reflexivity |].
  exists html. split; [exact Hhtml | exact Hfirst].
Defined.

(** X16. A report assembled without street imagery stays stored and
    breaks every rerun: the click that planned it ends with
    [AttributeError] and writes nothing, and so does every later rerun
    that is not a complete planning click, each leaving the session and the
    archive exactly as they were. *)
Theorem null_preview_report_sticks (w : Services) (stored : option ReportData)
    (start end_ : string) (data : ReportData) (timestamp : string)
    (archive : dict string) :
  start ≠ EmptyString -> end_ ≠ EmptyString ->
  plan w start end_ = Ok data -> drive_gif data = None ->
  let after_click :=
    script_run w stored true (Some start) (Some end_) timestamp archive in
  after_click
  = {| report_data := Some data; archive_after := archive;
       raised := Some AttributeError |}
  /\ forall button start' end_' later,
       button && selected start' && selected end_' = false ->
       script_run w (report_data after_click) button start' end_' later
                  (archive_after after_click)
       = after_click.
Proof.
  intros Hstart Hend Hplan Hgif. cbn zeta.
  assert (Hpresent : forall ts, present w ts archive data = Raise AttributeError).
  { intros ts. rewrite present_eq. unfold generate_report_html. by rewrite Hgif. }
  assert (Hclick : script_run w stored true (Some start) (Some end_) timestamp archive
                   = {| report_data := Some data; archive_after := archive;
                        raised := Some AttributeError |}).
  { rewrite script_run_click by done. by rewrite Hplan, Hpresent. }
  split; [exact Hclick|]. intros button start' end_' later Hquiet.
  rewrite Hclick. cbn [report_data archive_after].
  rewrite (script_run_stored w data button start' end_' later archive Hquiet).
  by rewrite Hpresent.
Qed.

Lemma null_preview_report_sticks_witness :
  script_run no_imagery None true (Some "Pune") (Some "Goa") "20250101_120000" []
  = {| report_data :=
         Some {| start_destination := "Pune"; end_destination := "Goa";
                 chosen_route := route_with "Route 1" 0;
                 ai_narrative := "AI narrative could not be generated.";
                 map_url := static_map_url no_imagery (route_with "Route 1" 0)
                                           "Pune" "Goa";
                 grid_urls := None; report_scenic_spots := [];
                 pit_stops := []; drive_gif := None |};
       archive_after := []; raised := Some AttributeError |}.
Proof.
  destruct (null_preview_report_sticks no_imagery None "Pune" "Goa"
              {| start_destination := "Pune"; end_destination := "Goa";
                 chosen_route := route_with "Route 1" 0;
                 ai_narrative := "AI narrative could not be generated.";
                 map_url := static_map_url no_imagery (route_with "Route 1" 0)
                                           "Pune" "Goa";
                 grid_urls := None; report_scenic_spots := [];
                 pit_stops := []; drive_gif := None |}
              "20250101_120000" [])
    as [Hclick _]; [discriminate | discriminate | by vm_compute | reflexivity |].
  exact Hclick.
Defined.

(** X17. A planning click that finds no route discards the report stored
    before it: whatever was stored, the rerun ends stopped with "No routes
    found.", with no stored report, and with the archive untouched. *)
Theorem click_without_routes_discards_report (w : Services)
    (stored : option ReportData) (start end_ : string) (timestamp : string)
    (archive : dict string) :
  start ≠ EmptyString -> end_ ≠ EmptyString ->
  get_route_options w start end_ = None ->
  script_run w stored true (Some start) (Some end_) timestamp archive
  = {| report_data := None; archive_after := archive;
       raised := Some (ScriptStopped "No routes found.") |}.
Proof.
  intros Hstart Hend Hnone. rewrite script_run_click by done.
  unfold plan. by rewrite Hnone.
Qed.

Lemma click_without_routes_discards_report_witness :
  script_run no_directions (Some sample_report) true (Some "Pune") (Some "Goa")
             "20250101_120000" [("archive/old.html", "old")]
  = {| report_data := None; archive_after := [("archive/old.html", "old")];
       raised := Some (ScriptStopped "No routes found.") |}.
Proof.
  apply (click_without_routes_discards_report no_directions (Some sample_report)
           "Pune" "Goa"); [discriminate | discriminate | reflexivity].
Defined.

(** *** The text placed in the document *)




(** X19. The two destinations are placed in the document as they were
    typed, without any escaping: a composed report is the fixed head of the
    template, the start destination, the text between the two, the end
    destination, and the rest of the document. *)
Theorem destinations_are_embedded_verbatim (w : Services) (data : ReportData)
    (blob : BytesIO) (urls : list string) :
  drive_gif data = Some blob -> grid_urls data = Some urls ->
  exists rest,
    generate_report_html w data
    = Ok (report_head +:+ start_destination data +:+ "</strong> to <strong>"
          +:+ end_destination data +:+ rest).
Proof.
  intros Hgif Hgrid. unfold generate_report_html. rewrite Hgif, Hgrid.
  cbn [mbind result_bind]. eexists. apply (f_equal Ok). unfold report_head.
  rewrite !str_app_assoc. reflexivity.
Qed.

Lemma destinations_are_embedded_verbatim_witness :
  exists rest,
    generate_report_html cafes_nearby sample_report
    = Ok (report_head +:+ "Pune" +:+ "</strong> to <strong>" +:+ "Goa" +:+ rest).
Proof.
  apply (destinations_are_embedded_verbatim cafes_nearby sample_report
           {| getvalue := [Byte.x47; Byte.x49; Byte.x46]; position := 0 |}
           ["https://maps.googleapis.com/maps/api/streetview?size=400x300"]);
    reflexivity.
Defined.

(** *** What the prompts are made of *)

Lemma choice_prompt_fold (routes routes' : list Route) (k : nat) (prompt : string) :
  (fun r => (summary r, length (scenic_spots r))) <$> routes
  = (fun r => (summary r, length (scenic_spots r))) <$> routes' ->
  foldl (fun prompt ir =>
           let route : Route := ir.2 in
           let scenic_summary :=
             match scenic_spots route with
             | [] => "Direct route."
             | _ :: _ =>
                 str_nat (length (scenic_spots route)) +:+ " scenic spots found."
             end in
           prompt +:+ "**Option " +:+ str_nat (ir.1 + 1) +:+ "**: via "
           +:+ summary route +:+ ". Details: " +:+ scenic_summary +:+ nl)
        prompt (zip (seq k (length routes)) routes)
  = foldl (fun prompt ir =>
           let route : Route := ir.2 in
           let scenic_summary :=
             match scenic_spots route with
             | [] => "Direct route."
             | _ :: _ =>
                 str_nat (length (scenic_spots route)) +:+ " scenic spots found."
             end in
           prompt +:+ "**Option " +:+ str_nat (ir.1 + 1) +:+ "**: via "
           +:+ summary route +:+ ". Details: " +:+ scenic_summary +:+ nl)
        prompt (zip (seq k (length routes')) routes').
Proof.
  revert routes' k prompt.
  induction routes as [|r routes IH]; intros [|r' routes'] k prompt Hsame;
    try discriminate; [reflexivity|].
  cbn [fmap list_fmap] in Hsame. injection Hsame as Hsummary Hcount Hrest.
  cbn [length seq zip zip_with foldl fst snd].
  rewrite (IH routes' (S k) _ Hrest). f_equal. rewrite Hsummary.
  destruct (scenic_spots r) as [|spot spots], (scenic_spots r') as [|spot' spots'];
    try discriminate; [reflexivity|].
  cbn [length] in *. by rewrite Hcount.
Qed.

(** X20. The route-choice request tells the generative model only the
    summary and the number of scenic spots of each route: two route lists
    that agree on those, position by position, produce the same prompt and
    so the same choice, whatever their spots, distances or polylines are. *)
Theorem route_choice_sees_counts_only (w : Services) (routes routes' : list Route) :
  (fun r => (summary r, length (scenic_spots r))) <$> routes
  = (fun r => (summary r, length (scenic_spots r))) <$> routes' ->
  choice_prompt routes = choice_prompt routes'
  /\ get_llm_choice w routes = get_llm_choice w routes'.
Proof.
  intros Hsame.
  assert (Hprompt : choice_prompt routes = choice_prompt routes')
    by (unfold choice_prompt, enumerate; by apply choice_prompt_fold).
  split; [exact Hprompt|]. unfold get_llm_choice. by rewrite Hprompt.
Qed.

Lemma route_choice_sees_counts_only_witness :
  choice_prompt three_routes
  = choice_prompt
      [ {| route_id := "A"; summary := "NH 48"; distance_text := "9 km";
           duration_text := "10 mins"; polyline := "x";
           scenic_spots := replicate 2 {| spot_name := "Fort";
                                          photo_reference := "f" |} |};
        {| route_id := "B"; summary := "NH 48"; distance_text := "9 km";
           duration_text := "10 mins"; polyline := "y";
           scenic_spots := replicate 5 {| spot_name := "Lake";
                                          photo_reference := "l" |} |};
        {| route_id := "C"; summary := "NH 48"; distance_text := "9 km";
           duration_text := "10 mins"; polyline := "z";
           scenic_spots := replicate 1 {| spot_name := "Dam";
                                          photo_reference := "d" |} |} ].
Proof.
  refine (proj1 (route_choice_sees_counts_only (says None) three_routes _ _)).
  reflexivity.
Defined.

(** X21. The narrative request names the summary of the chosen route and
    at most its first three scenic spots: two routes with the same summary
    and the same first three spot names produce the same prompt. *)
Theorem narrative_prompt_uses_three_names (r r' : Route) :
  summary r = summary r' ->
  take 3 (spot_name <$> scenic_spots r) = take 3 (spot_name <$> scenic_spots r') ->
  narrative_prompt r = narrative_prompt r'.
Proof.
  intros Hsummary Hnames. unfold narrative_prompt. rewrite Hsummary.
  destruct (spot_name <$> scenic_spots r) as [|n names] eqn:Hr,
           (spot_name <$> scenic_spots r') as [|n' names'] eqn:Hr';
    try discriminate; [reflexivity|].
  cbn zeta. by rewrite Hnames.
Qed.

Lemma narrative_prompt_uses_three_names_witness :
  narrative_prompt (route_with "Route 1" 3) = narrative_prompt (route_with "Route 2" 7).
Proof.
  apply narrative_prompt_uses_three_names; reflexivity.
Defined.

(** *** Where the chosen route comes from *)

(** X22. The chosen route of a completed plan is a provider route and
    nothing else: its label is "Route i+1" for some position [i] of the
    directions answer, its summary, polyline, distance and duration texts
    are those of provider route [i] (the texts of its first leg), and its
    scenic spots are what the scenic scorer returns for that polyline. *)
Theorem chosen_route_is_a_provider_route (w : Services) (start end_ : string)
    (data : ReportData) :
  plan w start end_ = Ok data ->
  exists routes i raw leg,
    directions w start end_ = Some routes
    /\ routes !! i = Some raw /\ head (legs raw) = Some leg
    /\ route_id (chosen_route data) = "Route " +:+ str_nat (i + 1)
    /\ summary (chosen_route data) = default EmptyString (raw_summary raw)
    /\ distance_text (chosen_route data) = leg_distance_text leg
    /\ duration_text (chosen_route data) = leg_duration_text leg
    /\ polyline (chosen_route data) = overview_polyline raw
    /\ get_scenic_spots w (overview_polyline raw)
       = Ok (scenic_spots (chosen_route data)).
Proof.
  intros Hplan.
  destruct (plan_Ok_inv _ _ _ _ Hplan)
    as (fetched & enriched & chosen & assets & stops & narrative
        & Hfetch & Hatt & _ & Hin & _ & _ & _ & ->).
  cbn [chosen_route].
  destruct (get_route_options_inv _ _ _ _ Hfetch)
    as (routes & Hdir & _ & _ & _ & Hfields).
  apply comprehension_Forall2 in Hatt.
  apply list_elem_of_lookup_1 in Hin as [i Hi].
  destruct (Forall2_lookup_r _ _ _ _ _ Hatt Hi) as (r0 & Hr0 & Hattach).
  apply attach_scenic_spots_fields in Hattach
    as (Hid & Hsum & Hdist & Hdur & Hpoly & Hspots).
  destruct (Hfields i r0 Hr0)
    as (raw & leg & Hraw & Hleg & Hid0 & Hsum0 & Hdist0 & Hdur0 & Hpoly0 & _).
  exists routes, i, raw, leg.
  rewrite Hid, Hsum, Hdist, Hdur, Hpoly, <- Hpoly0.
  by repeat split.
Qed.

Lemma chosen_route_is_a_provider_route_witness :
  exists routes i raw leg,
    directions no_imagery "Pune" "Goa" = Some routes
    /\ routes !! i = Some raw /\ head (legs raw) = Some leg
    /\ leg_distance_text leg = "150 km".
Proof.
  destruct (chosen_route_is_a_provider_route no_imagery "Pune" "Goa"
              {| start_destination := "Pune"; end_destination := "Goa";
                 chosen_route := route_with "Route 1" 0;
                 ai_narrative := "AI narrative could not be generated.";
                 map_url := static_map_url no_imagery (route_with "Route 1" 0)
                                           "Pune" "Goa";
                 grid_urls := None; report_scenic_spots := [];
                 pit_stops := []; drive_gif := None |})
    as (routes & i & raw & leg & Hdir & Hraw & Hleg & _ & _ & Hdist & _);
    [by vm_compute|].
  exists routes, i, raw, leg. by rewrite <- Hdist.
Defined.
